(** * Rips-backend: the image-to-records gateway

    A shallow embedding of the four variants of the Express server of the
    repository ([src/server.js] and its three siblings, [part_000],
    [part_001] and [part_002]) and the properties its specification states
    about them.

    - A JavaScript string is the list of its UTF-16 code units; [trim],
      [replace] with a global pattern and [JSON.parse] are written out.
    - A JavaScript value is an inductive type; reading a property of
      [undefined] or [null], calling what is no function and parsing what is
      no JSON throw.
    - A number is a binary64 value: [JSON.parse] rounds the decimal it reads
      to the nearest one, and [res.json] sends what [JSON.stringify] makes
      of a value.
    - The asynchronous handler is a program tree that returns, throws or
      calls the upstream endpoint; [try]/[catch] are combinators on it.
    - [process.env] is a finite map from names to strings.
    - What the repository does not determine is a parameter: the wording of
      the engine's error messages and the printing of numbers ([Engine]), the
      middleware of the libraries, the route matching and the final handler
      of Express ([Express]), the reply of the upstream.
    - Output on the console is not part of the model; the evaluation of a
      logged expression is, where it can throw. *)

From Stdlib Require Import NArith ZArith Ascii String DecimalString Lia.
From Stdlib Require Import SpecFloat.
From stdpp Require Import base option list strings gmap.

Set Warnings "-register-all".

Local Open Scope N_scope.
Local Open Scope nat_scope.
Local Open Scope list_scope.

(** ** JavaScript strings *)

(** A string value is the list of its UTF-16 code units. *)
Abbreviation jsstring := (list N).

Module JSString.

(** The code units of a source literal.  The source files are UTF-8; the
    literal's bytes are decoded to code points and those outside the basic
    plane are split into a surrogate pair. *)
Definition cont (b : N) : N := N.land b 0x3F.

Fixpoint of_utf8 (bs : list N) : jsstring :=
  match bs with
  | [] => []
  | b0 :: r0 =>
      if (b0 <? 0x80)%N then b0 :: of_utf8 r0
      else match r0 with
      | [] => [b0]
      | b1 :: r1 =>
          if (b0 <? 0xE0)%N then
            (N.lor (N.shiftl (N.land b0 0x1F) 6) (cont b1)) :: of_utf8 r1
          else match r1 with
          | [] => [b0; b1]
          | b2 :: r2 =>
              if (b0 <? 0xF0)%N then
                (N.lor (N.shiftl (N.land b0 0x0F) 12)
                   (N.lor (N.shiftl (cont b1) 6) (cont b2))) :: of_utf8 r2
              else match r2 with
              | [] => [b0; b1; b2]
              | b3 :: r3 =>
                  let cp := N.lor (N.shiftl (N.land b0 0x07) 18)
                              (N.lor (N.shiftl (cont b1) 12)
                                 (N.lor (N.shiftl (cont b2) 6) (cont b3))) in
                  let v := (cp - 0x10000)%N in
                  (0xD800 + N.shiftr v 10)%N :: (0xDC00 + N.land v 0x3FF)%N
                    :: of_utf8 r3
              end
          end
      end
  end.

Definition lit (s : string) : jsstring :=
  of_utf8 (map N_of_ascii (list_ascii_of_string s)).

Definition eqb (a b : jsstring) : bool := bool_decide (a = b).

(** [s.startsWith(p)] *)
Fixpoint starts_with (p s : jsstring) : bool :=
  match p, s with
  | [], _ => true
  | _ :: _, [] => false
  | a :: p', b :: s' => (a =? b)%N && starts_with p' s'
  end.

(** [s.includes(p)] *)
Fixpoint includes (p s : jsstring) : bool :=
  match s with
  | [] => starts_with p []
  | _ :: s' => starts_with p s || includes p s'
  end.

(** WhiteSpace and LineTerminator of ECMAScript, the code units that
    [String.prototype.trim] removes. *)
Definition is_white_space (c : N) : bool :=
  ((9 <=? c) && (c <=? 13) || (c =? 32) || (c =? 0xA0) || (c =? 0x1680)
   || (0x2000 <=? c) && (c <=? 0x200A)
   || (c =? 0x2028) || (c =? 0x2029) || (c =? 0x202F) || (c =? 0x205F)
   || (c =? 0x3000) || (c =? 0xFEFF))%N.

Fixpoint trim_start (s : jsstring) : jsstring :=
  match s with
  | [] => []
  | c :: s' => if is_white_space c then trim_start s' else s
  end.

Fixpoint trim_end (s : jsstring) : jsstring :=
  match s with
  | [] => []
  | c :: s' =>
      match trim_end s' with
      | [] => if is_white_space c then [] else [c]
      | t => c :: t
      end
  end.

(** [s.trim()] *)
Definition trim (s : jsstring) : jsstring := trim_end (trim_start s).

(** [s.replace(/p/g, r)] for a pattern [p] that is a non-empty literal: the
    matches are found left to right and do not overlap.  [skip] counts the
    code units of the current match still to be passed over. *)
Fixpoint replace_from (p r : jsstring) (skip : nat) (s : jsstring) : jsstring :=
  match s with
  | [] => []
  | c :: s' =>
      match skip with
      | S k => replace_from p r k s'
      | O =>
          if starts_with p s then r ++ replace_from p r (length p - 1) s'
          else c :: replace_from p r 0 s'
      end
  end.

Definition replace_all (p r s : jsstring) : jsstring := replace_from p r 0 s.

End JSString.

Import JSString.


(** ** JavaScript values *)

(** A number is a binary64 value: a zero with its sign, an infinity, NaN, or
    (-1)^s * m * 2^e with m below 2^53. *)
Definition number := spec_float.

(** The number a decimal literal denotes, (-1)^neg * mant * 10^exp rounded to
    the nearest binary64 value, ties to even: beyond the range of binary64
    it is an infinity, below it a zero. *)
Definition binary64 (neg : bool) (mant : N) (exp : Z) : number :=
  match mant with
  | N0 => S754_zero neg
  | Npos m =>
      match exp with
      | Zneg k => SFdiv 53 1024 (S754_finite neg m 0) (S754_finite false (10 ^ k) 0)
      | _ => binary_normalize 53 1024
               ((if neg then Z.neg m else Z.pos m) * 10 ^ exp) 0 neg
      end
  end.

Definition number_of_nat (n : nat) : number := binary64 false (N.of_nat n) 0.

(** [x === 0 || Number.isNaN(x)] *)
Definition is_zero_or_nan (n : number) : bool :=
  match n with S754_zero _ | S754_nan => true | _ => false end.

Inductive value :=
| Undefined
| Null
| Bool (b : bool)
| Num (n : number)
| Str (s : jsstring)
| Arr (elems : list value)
| Obj (props : list (jsstring * value)).

(** The errors that can be thrown; handlers only ever read [message]. *)
Inductive error_kind := Error_ | TypeError | SyntaxError | FetchError.
Record error := { kind : error_kind; message : jsstring }.

(** ToBoolean *)
Definition truthy (v : value) : bool :=
  match v with
  | Undefined | Null => false
  | Bool b => b
  | Num n => negb (is_zero_or_nan n)
  | Str s => match s with [] => false | _ => true end
  | Arr _ | Obj _ => true
  end.

(** [a || b] *)
Definition or_else (a b : value) : value := if truthy a then a else b.

(** Own properties of an object, in property order. *)
Fixpoint own (k : jsstring) (props : list (jsstring * value)) : option value :=
  match props with
  | [] => None
  | (k', v) :: rest => if eqb k k' then Some v else own k rest
  end.

(** The value of a canonical array index ("0", "1", ..., at most 2^32 - 2). *)
Definition is_digit (c : N) : bool := ((48 <=? c) && (c <=? 57))%N.

Definition digits_value (s : jsstring) : N :=
  fold_left (fun acc c => (10 * acc + (c - 48))%N) s 0%N.

Definition array_index (k : jsstring) : option N :=
  match k with
  | [] => None
  | c :: rest =>
      if forallb is_digit k && implb (c =? 48)%N (match rest with [] => true | _ => false end)
         && (length k <=? 10) && (digits_value k <=? 4294967294)%N
      then Some (digits_value k) else None
  end.

(** ** JSON.parse *)

Module JSON.

Inductive token :=
| LBrace | RBrace | LBracket | RBracket | Colon | Comma
| TStr (s : jsstring) | TNum (n : number) | TTrue | TFalse | TNull.

(** *** The lexer: one step per code unit *)

(** Where the lexer is inside a number: an optional minus sign; a zero or a
    non-zero digit followed by digits; optionally a point and digits;
    optionally e or E, a sign and digits. *)
Inductive numstate :=
| NMinus | NZero | NInt | NDot | NFrac | NExpMark | NExpSign | NExp.

Record numacc :=
  { neg : bool; mant : N; scale : N; eneg : bool; eabs : N }.

Definition number_of (a : numacc) : number :=
  binary64 (neg a) (mant a)
    ((if eneg a then - Z.of_N (eabs a) else Z.of_N (eabs a)) - Z.of_N (scale a))%Z.

Definition accepting (st : numstate) : bool :=
  match st with NZero | NInt | NFrac | NExp => true | _ => false end.

(** The three words of JSON. *)
Inductive word := WTrue | WFalse | WNull.

Definition word_text (w : word) : jsstring :=
  match w with
  | WTrue => lit "true"
  | WFalse => lit "false"
  | WNull => lit "null"
  end.

Definition word_token (w : word) : token :=
  match w with WTrue => TTrue | WFalse => TFalse | WNull => TNull end.

Inductive lstate :=
| LDefault
| LStr (acc : jsstring)                      (* inside a string; [acc] is reversed *)
| LEsc (acc : jsstring)                      (* after a backslash *)
| LHex (acc : jsstring) (todo : nat) (v : N) (* inside a u escape *)
| LWord (w : word) (k : nat)                 (* [k] code units into a word *)
| LNumber (st : numstate) (a : numacc).

Definition is_ws (c : N) : bool :=
  ((c =? 32) || (c =? 9) || (c =? 10) || (c =? 13))%N.

Definition hex_value (c : N) : option N :=
  if is_digit c then Some (c - 48)%N
  else if ((97 <=? c) && (c <=? 102))%N then Some (c - 87)%N
  else if ((65 <=? c) && (c <=? 70))%N then Some (c - 55)%N
  else None.

Definition start_num (n : bool) (st : numstate) (m : N) : lstate :=
  LNumber st {| neg := n; mant := m; scale := 0; eneg := false; eabs := 0 |}.

(** Outside any token. [out] holds the tokens found so far, last first. *)
Definition default_step (out : list token) (c : N) : option (lstate * list token) :=
  if is_ws c then Some (LDefault, out)
  else if (c =? 123)%N then Some (LDefault, LBrace :: out)
  else if (c =? 125)%N then Some (LDefault, RBrace :: out)
  else if (c =? 91)%N then Some (LDefault, LBracket :: out)
  else if (c =? 93)%N then Some (LDefault, RBracket :: out)
  else if (c =? 58)%N then Some (LDefault, Colon :: out)
  else if (c =? 44)%N then Some (LDefault, Comma :: out)
  else if (c =? 34)%N then Some (LStr [], out)
  else if (c =? 45)%N then Some (start_num true NMinus 0, out)
  else if (c =? 48)%N then Some (start_num false NZero 0, out)
  else if is_digit c then Some (start_num false NInt (c - 48), out)
  else if (c =? 116)%N then Some (LWord WTrue 1, out)
  else if (c =? 102)%N then Some (LWord WFalse 1, out)
  else if (c =? 110)%N then Some (LWord WNull 1, out)
  else None.

Definition is_exp_mark (c : N) : bool := ((c =? 101) || (c =? 69))%N.

Definition num_step (st : numstate) (a : numacc) (out : list token) (c : N)
  : option (lstate * list token) :=
  let d := (c - 48)%N in
  let int_digit := {| neg := neg a; mant := 10 * mant a + d; scale := scale a;
                      eneg := eneg a; eabs := eabs a |} in
  let frac_digit := {| neg := neg a; mant := 10 * mant a + d; scale := scale a + 1;
                       eneg := eneg a; eabs := eabs a |} in
  let exp_digit := {| neg := neg a; mant := mant a; scale := scale a;
                      eneg := eneg a; eabs := 10 * eabs a + d |} in
  let exp_minus := {| neg := neg a; mant := mant a; scale := scale a;
                      eneg := true; eabs := eabs a |} in
  let finish := default_step (TNum (number_of a) :: out) c in
  match st with
  | NMinus =>
      if (c =? 48)%N then Some (LNumber NZero a, out)
      else if is_digit c then Some (LNumber NInt int_digit, out)
      else None
  | NZero =>
      if (c =? 46)%N then Some (LNumber NDot a, out)
      else if is_exp_mark c then Some (LNumber NExpMark a, out)
      else finish
  | NInt =>
      if is_digit c then Some (LNumber NInt int_digit, out)
      else if (c =? 46)%N then Some (LNumber NDot a, out)
      else if is_exp_mark c then Some (LNumber NExpMark a, out)
      else finish
  | NDot =>
      if is_digit c then Some (LNumber NFrac frac_digit, out) else None
  | NFrac =>
      if is_digit c then Some (LNumber NFrac frac_digit, out)
      else if is_exp_mark c then Some (LNumber NExpMark a, out)
      else finish
  | NExpMark =>
      if (c =? 43)%N then Some (LNumber NExpSign a, out)
      else if (c =? 45)%N then Some (LNumber NExpSign exp_minus, out)
      else if is_digit c then Some (LNumber NExp exp_digit, out)
      else None
  | NExpSign =>
      if is_digit c then Some (LNumber NExp exp_digit, out) else None
  | NExp =>
      if is_digit c then Some (LNumber NExp exp_digit, out) else finish
  end.

(** The single-character escapes: quote, backslash, slash, b, f, n, r, t. *)
Definition escape (c : N) : option N :=
  if (c =? 34)%N then Some 34%N
  else if (c =? 92)%N then Some 92%N
  else if (c =? 47)%N then Some 47%N
  else if (c =? 98)%N then Some 8%N
  else if (c =? 102)%N then Some 12%N
  else if (c =? 110)%N then Some 10%N
  else if (c =? 114)%N then Some 13%N
  else if (c =? 116)%N then Some 9%N
  else None.

Definition lex_step (q : lstate) (out : list token) (c : N)
  : option (lstate * list token) :=
  match q with
  | LDefault => default_step out c
  | LStr acc =>
      if (c =? 34)%N then Some (LDefault, TStr (rev acc) :: out)
      else if (c =? 92)%N then Some (LEsc acc, out)
      else if (c <? 32)%N then None
      else Some (LStr (c :: acc), out)
  | LEsc acc =>
      if (c =? 117)%N then Some (LHex acc 4 0%N, out)
      else match escape c with
           | Some e => Some (LStr (e :: acc), out)
           | None => None
           end
  | LHex acc todo v =>
      match hex_value c, todo with
      | Some d, 1 => Some (LStr ((16 * v + d)%N :: acc), out)
      | Some d, S k => Some (LHex acc k (16 * v + d)%N, out)
      | _, _ => None
      end
  | LWord w k =>
      match word_text w !! k with
      | Some e =>
          if (c =? e)%N then
            if S k =? length (word_text w) then Some (LDefault, word_token w :: out)
            else Some (LWord w (S k), out)
          else None
      | None => None
      end
  | LNumber st a => num_step st a out c
  end.

Definition lex_finish (q : lstate) (out : list token) : option (list token) :=
  match q with
  | LDefault => Some (rev out)
  | LNumber st a =>
      if accepting st then Some (rev (TNum (number_of a) :: out)) else None
  | _ => None
  end.

Fixpoint lex_from (q : lstate) (out : list token) (s : jsstring)
  : option (list token) :=
  match s with
  | [] => lex_finish q out
  | c :: s' =>
      match lex_step q out c with
      | Some (q', out') => lex_from q' out' s'
      | None => None
      end
  end.

Definition lex (s : jsstring) : option (list token) := lex_from LDefault [] s.

(** *** Building the value: one step per token *)

(** Defining a property: an existing key keeps its place and takes the new
    value; array indices come first, in ascending order; other keys follow
    in the order they were first defined. *)
Definition key_before (k k' : jsstring) : bool :=
  match array_index k, array_index k' with
  | Some i, Some j => (i <? j)%N
  | Some _, None => true
  | None, _ => false
  end.

Fixpoint define (k : jsstring) (v : value) (props : list (jsstring * value))
  : list (jsstring * value) :=
  match props with
  | [] => [(k, v)]
  | (k', v') :: rest =>
      if eqb k k' then (k, v) :: rest
      else if key_before k k' then (k, v) :: props
      else (k', v') :: define k v rest
  end.

(** An enclosing array or object that waits for the value being read. *)
Inductive frame :=
| FArr (done : list value)                                 (* reversed *)
| FObj (props : list (jsstring * value)) (key : jsstring).

Inductive pstate :=
| PValue (stk : list frame)                (* a value must follow *)
| PArrStart (stk : list frame)             (* after [ : a value or ] *)
| PObjStart (stk : list frame)             (* after { : a key or } *)
| PKey (props : list (jsstring * value)) (stk : list frame)
| PColon (props : list (jsstring * value)) (key : jsstring) (stk : list frame)
| PArrNext (done : list value) (stk : list frame)    (* , or ] *)
| PObjNext (props : list (jsstring * value)) (stk : list frame) (* , or } *)
| PDone (v : value).

Definition deliver (v : value) (stk : list frame) : pstate :=
  match stk with
  | [] => PDone v
  | FArr done :: stk' => PArrNext (v :: done) stk'
  | FObj props key :: stk' => PObjNext (define key v props) stk'
  end.

Definition value_token (t : token) (stk : list frame) : option pstate :=
  match t with
  | TStr s => Some (deliver (Str s) stk)
  | TNum n => Some (deliver (Num n) stk)
  | TTrue => Some (deliver (Bool true) stk)
  | TFalse => Some (deliver (Bool false) stk)
  | TNull => Some (deliver Null stk)
  | LBracket => Some (PArrStart stk)
  | LBrace => Some (PObjStart stk)
  | _ => None
  end.

Definition parse_step (p : pstate) (t : token) : option pstate :=
  match p, t with
  | PValue stk, _ => value_token t stk
  | PArrStart stk, RBracket => Some (deliver (Arr []) stk)
  | PArrStart stk, _ => value_token t (FArr [] :: stk)
  | PObjStart stk, RBrace => Some (deliver (Obj []) stk)
  | PObjStart stk, TStr k => Some (PColon [] k stk)
  | PKey props stk, TStr k => Some (PColon props k stk)
  | PColon props k stk, Colon => Some (PValue (FObj props k :: stk))
  | PArrNext done stk, Comma => Some (PValue (FArr done :: stk))
  | PArrNext done stk, RBracket => Some (deliver (Arr (rev done)) stk)
  | PObjNext props stk, Comma => Some (PKey props stk)
  | PObjNext props stk, RBrace => Some (deliver (Obj props) stk)
  | _, _ => None
  end.

Fixpoint parse_from (p : pstate) (ts : list token) : option value :=
  match ts with
  | [] => match p with PDone v => Some v | _ => None end
  | t :: ts' =>
      match parse_step p t with
      | Some p' => parse_from p' ts'
      | None => None
      end
  end.

(** [JSON.parse(s)], [None] where it throws a SyntaxError. *)
Definition parse (s : jsstring) : option value :=
  match lex s with
  | Some ts => parse_from (PValue []) ts
  | None => None
  end.

End JSON.

Definition dq : jsstring := [34%N].
Definition q (s : string) : jsstring := dq ++ lit s ++ dq.

(** [null] and [undefined], which have no properties. *)
Definition nullish (v : value) : bool :=
  match v with Undefined | Null => true | _ => false end.

(** The value of [v.k] and [v[k]] where [v] is not nullish, for the keys the
    handlers read: none of them names a member of a prototype, except
    [length]. *)
Definition field (v : value) (k : jsstring) : value :=
  match v with
  | Obj props => default Undefined (own k props)
  | Arr elems =>
      if eqb k (lit "length") then Num (number_of_nat (length elems))
      else match array_index k with
           | Some i => default Undefined (elems !! N.to_nat i)
           | None => Undefined
           end
  | Str s =>
      if eqb k (lit "length") then Num (number_of_nat (length s))
      else match array_index k with
           | Some i => from_option (fun c => Str [c]) Undefined (s !! N.to_nat i)
           | None => Undefined
           end
  | _ => Undefined
  end.

(** [v.k1.k2...] read without the exceptions: [Undefined] as soon as a
    property is read of a nullish value. *)
Definition at_path (v : value) (ks : list jsstring) : value :=
  fold_left field ks v.

(** [`${n}`] for a natural number such as a status code *)
Definition decimal (n : N) : jsstring :=
  lit (NilEmpty.string_of_uint (N.to_uint n)).

(** ** Programs: exceptions and the upstream call *)

(** What [await fetch(url, init)] yields: the promise rejects (transport
    failure) or resolves to a response with a status and a body text. *)
Record reply := { reply_status : N; reply_text : jsstring }.

Inductive outcome :=
| Rejected (e : error)
| Resolved (r : reply).

(** A computation returns, throws, or calls the upstream endpoint and goes on
    with its outcome.  [body] is the value handed to [JSON.stringify]. *)
Inductive prog (A : Type) : Type :=
| Ret (a : A)
| Throw (e : error)
| Fetch (url : jsstring) (body : value) (k : outcome -> prog A).

Arguments Ret {A} a.
Arguments Throw {A} e.
Arguments Fetch {A} url body k.

Fixpoint bind {A B} (m : prog A) (f : A -> prog B) : prog B :=
  match m with
  | Ret a => f a
  | Throw e => Throw e
  | Fetch u b k => Fetch u b (fun o => bind (k o) f)
  end.

#[export] Instance prog_ret : MRet prog := @Ret.
#[export] Instance prog_bind : MBind prog := fun A B f m => bind m f.

(** [try { m } catch (e) { h e }] *)
Fixpoint try_catch {A} (m : prog A) (h : error -> prog A) : prog A :=
  match m with
  | Ret a => Ret a
  | Throw e => h e
  | Fetch u b k => Fetch u b (fun o => try_catch (k o) h)
  end.

(** [let x; try { x = m } catch (e) { return h e }; k x] *)
Fixpoint try_let {A B} (m : prog A) (h : error -> prog B) (k : A -> prog B)
  : prog B :=
  match m with
  | Ret a => k a
  | Throw e => h e
  | Fetch u b c => Fetch u b (fun o => try_let (c o) h k)
  end.

(** [throw new Error(msg)] *)
Definition throw_Error {A} (msg : jsstring) : prog A :=
  Throw {| kind := Error_; message := msg |}.

(** Running a program against an upstream: the result and the calls made. *)
Definition upstream := jsstring -> value -> outcome.

Fixpoint run {A} (up : upstream) (m : prog A) : (error + A) * list (jsstring * value) :=
  match m with
  | Ret a => (inr a, [])
  | Throw e => (inl e, [])
  | Fetch u b k => let '(r, calls) := run up (k (up u b)) in (r, (u, b) :: calls)
  end.

(** ** The engine *)

(** The TypeErrors the handlers can provoke. *)
Inductive type_error :=
| ReadOfNullish (base : value) (prop : jsstring)   (* x.p, x undefined or null *)
| DestructureNullish (base : value)                (* const {p} = x, likewise *)
| NotAFunction (prop : jsstring)                   (* x.p(), x.p not callable *)
| NotPrimitive.                                    (* ToString of an object whose
                                                      own toString is no function *)

(** What the source does not determine: the wording of the messages of the
    errors raised by the engine and by node-fetch, and the printing of
    numbers. *)
Class Engine := {
  type_error_message : type_error -> jsstring;
  json_syntax_message : jsstring -> jsstring;
  invalid_json_body_message : jsstring -> jsstring -> jsstring;
  number_to_string : number -> jsstring;
}.

Section JS.
Context `{Engine}.

Definition throw_TypeError {A} (t : type_error) : prog A :=
  Throw {| kind := TypeError; message := type_error_message t |}.

(** [v.k] and [v[k]] *)
Definition get (v : value) (k : jsstring) : prog value :=
  if nullish v then throw_TypeError (ReadOfNullish v k) else Ret (field v k).

(** [const { k } = v] *)
Definition destructure (v : value) (k : jsstring) : prog value :=
  if nullish v then throw_TypeError (DestructureNullish v) else Ret (field v k).

(** [v.trim()] *)
Definition call_trim (v : value) : prog jsstring :=
  match v with
  | Str s => Ret (trim s)
  | Undefined | Null => throw_TypeError (ReadOfNullish v (lit "trim"))
  | _ => throw_TypeError (NotAFunction (lit "trim"))
  end.

(** [v.replace(/p/g, r)] *)
Definition call_replace (v : value) (p r : jsstring) : prog jsstring :=
  match v with
  | Str s => Ret (replace_all p r s)
  | Undefined | Null => throw_TypeError (ReadOfNullish v (lit "replace"))
  | _ => throw_TypeError (NotAFunction (lit "replace"))
  end.

(** [v === 'lit'] *)
Definition is_string (v : value) (s : jsstring) : bool :=
  match v with Str s' => eqb s' s | _ => false end.

Fixpoint join (sep : jsstring) (l : list jsstring) : jsstring :=
  match l with
  | [] => []
  | [x] => x
  | x :: rest => x ++ sep ++ join sep rest
  end.

(** ToString, as in a template literal [`${v}`].  [None] where it throws. *)
Fixpoint to_string_opt (v : value) : option jsstring :=
  match v with
  | Undefined => Some (lit "undefined")
  | Null => Some (lit "null")
  | Bool true => Some (lit "true")
  | Bool false => Some (lit "false")
  | Num n => Some (number_to_string n)
  | Str s => Some s
  | Arr elems =>
      let fix each (l : list value) : option (list jsstring) :=
        match l with
        | [] => Some []
        | x :: l' =>
            match (match x with
                   | Undefined | Null => Some []
                   | _ => to_string_opt x
                   end), each l' with
            | Some s, Some ss => Some (s :: ss)
            | _, _ => None
            end
        end in
      match each elems with
      | Some ss => Some (join (lit ",") ss)
      | None => None
      end
  | Obj props =>
      match own (lit "toString") props with
      | Some _ => None
      | None => Some (lit "[object Object]")
      end
  end.

Definition to_string (v : value) : prog jsstring :=
  match to_string_opt v with
  | Some s => Ret s
  | None => throw_TypeError NotPrimitive
  end.

(** [JSON.parse(s)] *)
Definition JSON_parse (s : jsstring) : prog value :=
  match JSON.parse s with
  | Some v => Ret v
  | None => Throw {| kind := SyntaxError; message := json_syntax_message s |}
  end.

(** [await fetch(url, { method: 'POST', headers, body: JSON.stringify(body) })] *)
Definition fetch (url : jsstring) (body : value) : prog reply :=
  Fetch url body (fun o =>
    match o with
    | Rejected e => Throw e
    | Resolved r => Ret r
    end).

(** [response.ok] *)
Definition ok (r : reply) : bool :=
  ((200 <=? reply_status r) && (reply_status r <=? 299))%N.

(** [await response.json()], a method of node-fetch *)
Definition response_json (url : jsstring) (r : reply) : prog value :=
  match JSON.parse (reply_text r) with
  | Some v => Ret v
  | None =>
      Throw {| kind := FetchError;
               message := invalid_json_body_message url
                            (json_syntax_message (reply_text r)) |}
  end.

End JS.


(** The instruction of [src/server.js] (Gemini 1.5 Pro). *)
Definition prompt_server : jsstring :=
  lit "
Analiza esta imagen de una agenda médica. Tu tarea es extraer los datos de los pacientes que ASISTIERON.

CRITERIO CRÍTICO:
Debes extraer CADA paciente que tenga una marca de verificación (✓), un " ++ q "check" ++ lit ", o una casilla marcada en la columna " ++ q "LLEGO" ++ lit ".
La precisión es más importante que la velocidad. NO debes omitir ningún paciente marcado.

PASOS DE RAZONAMIENTO (Chain of Thought):
1. Primero, recorre visualmente la columna " ++ q "LLEGO" ++ lit " de arriba a abajo.
2. Cuenta mentalmente cuántas casillas tienen marca de verificación. (Deberías encontrar todas las que sean visibles).
3. Luego, extrae los datos de esas filas específicas.

Para cada paciente identificado, extrae:
- FECHA (formato: YYYY/MM/DD)
- HORA (HH:MM)
- NOMBRE (mayúsculas)
- IDENTIDAD (solo números)
- EDAD (solo el número)

FORMATO DE RESPUESTA:
Responde ÚNICAMENTE con un array JSON puro.
Ejemplo:
[
  { " ++ q "FECHA" ++ lit ": " ++ q "2025/12/02" ++ lit ", " ++ q "HORA" ++ lit ": " ++ q "13:40" ++ lit ", " ++ q "NOMBRE" ++ lit ": " ++ q "JUAN PEREZ" ++ lit ", " ++ q "IDENTIDAD" ++ lit ": " ++ q "123456" ++ lit ", " ++ q "EDAD" ++ lit ": " ++ q "30" ++ lit " },
  ...
]

No incluyas texto antes ni después del JSON.
".

(** The instruction of [part_000] (Gemini 2.0 Flash, exhaustive wording). *)
Definition prompt_000 : jsstring :=
  lit "
Analiza EXHAUSTIVAMENTE esta imagen de una agenda médica fila por fila.
Tu objetivo es extraer TODOS los pacientes que asistieron, sin omitir ninguno.

Criterio de inclusión:
- Pacientes que tienen una marca de verificación (✓, check, o similar) en la columna " ++ q "LLEGO" ++ lit ".
- O pacientes donde la casilla " ++ q "LLEGO" ++ lit " está marcada/rellena.

Instrucciones paso a paso:
1. Escanea la imagen de arriba a abajo, fila por fila.
2. Verifica CADA fila. Si la columna " ++ q "LLEGO" ++ lit " tiene una marca, EXTRAE los datos.
3. No te detengas hasta llegar al final de la lista.
4. Asegúrate de contar y extraer TODAS las filas marcadas visualmente.

Para cada paciente identificado, extrae:
- FECHA (formato: YYYY/MM/DD)
- HORA (HH:MM)
- NOMBRE (mayúsculas)
- IDENTIDAD (solo números)
- EDAD (solo el número)

IMPORTANTE:
Responde ÚNICAMENTE con un array JSON puro, sin texto externo, sin comentarios, 
sin explicaciones, sin bloques markdown.
".

(** The instruction of [part_002] (Gemini 2.0 Flash). *)
Definition prompt_002 : jsstring :=
  lit "
Analiza esta imagen de una agenda médica y extrae ÚNICAMENTE los pacientes 
que tienen una marca de verificación (✓) en la columna " ++ q "LLEGO" ++ lit " o que claramente se ve que asistieron.

Para cada paciente marcado, extrae:
- FECHA (formato: YYYY/MM/DD)
- HORA (HH:MM)
- NOMBRE (mayúsculas)
- IDENTIDAD (solo números)
- EDAD (solo el número)

IMPORTANTE:
Responde ÚNICAMENTE con un array JSON puro, sin texto externo, sin comentarios, 
sin explicaciones, sin bloques markdown.
".

(** The instruction of [part_001] (Gemini 2.0 Flash, experimental). *)
Definition prompt_001 : jsstring :=
  lit "Extract the following patient data from this image: Fecha, Hora, Nombre, Identidad, Edad. Return a JSON array of objects with these keys. If a field is missing, use an empty string. The response should be raw JSON without markdown formatting.".

(** ** Express: requests, responses, routing *)

Record Request := { req_method : jsstring; req_path : jsstring; req_body : value }.

(** What [JSON.stringify] makes of a value, as the JSON value its text
    denotes: a number that is not finite becomes [null], and -0 becomes 0; in
    an array [undefined] becomes [null]; a property whose value is
    [undefined] is left out.  ([undefined] itself has no JSON text.) *)
Fixpoint serialized (v : value) : value :=
  match v with
  | Num (S754_finite _ _ _) => v
  | Num (S754_zero _) => Num (S754_zero false)
  | Num _ => Null
  | Arr elems =>
      Arr (map (fun x => match x with Undefined => Null | _ => serialized x end) elems)
  | Obj props =>
      Obj (flat_map (fun kv => let '(k, x) := kv in
                               match x with
                               | Undefined => []
                               | _ => [(k, serialized x)]
                               end) props)
  | _ => v
  end.

(** A value that [JSON.stringify] renders as it is: it holds no [undefined],
    no number that is not finite and no negative zero. *)
Fixpoint verbatim (v : value) : bool :=
  match v with
  | Undefined => false
  | Num (S754_finite _ _ _) | Num (S754_zero false) => true
  | Num _ => false
  | Arr elems => forallb verbatim elems
  | Obj props => forallb (fun kv => verbatim kv.2) props
  | _ => true
  end.

Inductive payload :=
| Json (v : value)          (* the JSON value of the body sent by res.json *)
| Page (text : jsstring).   (* anything else: a page, a file, an empty body *)

Record Response := { res_status : N; res_body : payload }.

(** [res.status(st).json(v)]; [res.json(v)] is [res_json 200 v].  The body is
    the text [JSON.stringify(v)]. *)
Definition res_json (st : N) (v : value) : Response :=
  {| res_status := st; res_body := Json (serialized v) |}.

(** What Express and the middleware of its ecosystem decide. *)
Class Express := {
  (** whether the router dispatches the request to a route registered with
      this method and path *)
  route_matches : string -> string -> Request -> bool;
  (** [cors()], [express.json({ limit: '50mb' })] and [express.static(...)],
      mounted before every route: [Some] when one of them ends the request
      (a preflight, a body that is rejected, a file that is found) *)
  library_middleware : Request -> option Response;
  (** the answer of Express's final handler, which a request reaches when
      nothing has answered it *)
  final_handler : Request -> Response;
}.

(** [process.env.NAME] *)
Definition env_var (env : gmap string jsstring) (name : string) : value :=
  from_option Str Undefined (env !! name).

Section Handlers.
Context `{Engine}.

Fixpoint get_path (v : value) (ks : list jsstring) : prog value :=
  match ks with
  | [] => Ret v
  | k :: ks' => v' ← get v k; get_path v' ks'
  end.

(** [v?.k1?.k2 ...] *)
Fixpoint get_chain (v : value) (ks : list jsstring) : prog value :=
  match ks with
  | [] => Ret v
  | k :: ks' =>
      match v with
      | Undefined | Null => Ret Undefined
      | _ => v' ← get v k; get_chain v' ks'
      end
  end.

(** [a && b], [a || b], [!a], [a === 'lit'] *)
Definition and_ (a b : prog value) : prog value :=
  x ← a; if truthy x then b else Ret x.
Definition or_ (a b : prog value) : prog value :=
  x ← a; if truthy x then Ret x else b.
Definition not_ (a : prog value) : prog value :=
  x ← a; Ret (Bool (negb (truthy x))).
Definition is_ (a : prog value) (s : string) : prog value :=
  x ← a; Ret (Bool (is_string x (lit s))).

(** The body of the upstream request. *)
Definition generate_content (text : jsstring) (mime_type data : value) : value :=
  Obj [(lit "contents",
        Arr [Obj [(lit "parts",
                   Arr [Obj [(lit "text", Str text)];
                        Obj [(lit "inline_data",
                              Obj [(lit "mime_type", mime_type);
                                   (lit "data", data)])]])]])].

Definition models : jsstring :=
  lit "https://generativelanguage.googleapis.com/v1beta/models/".

Definition fence_json : jsstring := lit "```json".
Definition fence : jsstring := lit "```".

(** [s.replace(/```json/g, '').replace(/```/g, '').trim()] *)
Definition strip_fences (s : jsstring) : jsstring :=
  trim (replace_all fence [] (replace_all fence_json [] s)).

Definition candidate_text : list jsstring :=
  [lit "candidates"; lit "0"; lit "content"; lit "parts"; lit "0"; lit "text"].

(** *** [src/server.js] and [part_000]

    The two files differ in the model, the instruction and a log line. *)
Definition process_image_vercel (model : string) (prompt : jsstring)
    (env : gmap string jsstring) (req : Request) : prog Response :=
  try_catch
    (imageData ← destructure (req_body req) (lit "imageData");
     mediaType ← destructure (req_body req) (lit "mediaType");
     let API_KEY :=
       or_else (env_var env "GEMINI_API_KEY") (env_var env "GOOGLE_API_KEY") in
     if negb (truthy API_KEY) then
       throw_Error (lit "API key no está configurada. Verifica las variables de entorno en Vercel.")
     else
     key ← to_string API_KEY;
     let apiURL := models ++ lit model ++ lit ":generateContent?key=" ++ key in
     response ← fetch apiURL (generate_content prompt mediaType imageData);
     json ← response_json apiURL response;
     e ← get json (lit "error");
     if truthy e then
       m ← or_ (get_path json [lit "error"; lit "message"])
               (Ret (Str (lit "Unknown error")));
       msg ← to_string m;
       throw_Error (lit "API Error: " ++ msg)
     else
     invalid ← or_ (not_ (get json (lit "candidates")))
                   (not_ (get_path json [lit "candidates"; lit "0"]));
     if truthy invalid then
       throw_Error (lit "Respuesta inválida del modelo. Verifica los logs para más detalles.")
     else
     blocked ← and_ (get json (lit "promptFeedback"))
                    (get_path json [lit "promptFeedback"; lit "blockReason"]);
     if truthy blocked then
       reason ← get_path json [lit "promptFeedback"; lit "blockReason"];
       msg ← to_string reason;
       throw_Error (lit "Contenido bloqueado por seguridad: " ++ msg)
     else
     candidate ← get_path json [lit "candidates"; lit "0"];
     filtered ← or_ (is_ (get candidate (lit "finishReason")) "SAFETY")
                    (is_ (get candidate (lit "finishReason")) "RECITATION");
     if truthy filtered then
       reason ← get candidate (lit "finishReason");
       msg ← to_string reason;
       throw_Error (lit "Contenido filtrado por: " ++ msg)
     else
     text ← get_path json candidate_text;
     rawText ← call_trim text;
     let cleanJson := strip_fences rawText in
     try_let (JSON_parse cleanJson)
       (fun err =>
          Ret (res_json 400
                 (Obj [(lit "error", Str (lit "Error al parsear respuesta del modelo"));
                       (lit "raw", Str cleanJson)])))
       (fun parsed =>
          (* console.log('Successfully parsed', parsed.length, 'patients') *)
          _ ← get parsed (lit "length");
          Ret (res_json 200 parsed)))
    (fun error =>
       Ret (res_json 500
              (Obj [(lit "error", Str (message error));
                    (lit "note", Str (lit "Verifica que la API key esté configurada en Vercel Environment Variables"))]))).

(** *** [part_001] *)
Definition process_image_001
    (env : gmap string jsstring) (req : Request) : prog Response :=
  try_catch
    (imageData ← destructure (req_body req) (lit "imageData");
     mediaType ← destructure (req_body req) (lit "mediaType");
     if negb (truthy imageData) then
       Ret (res_json 400 (Obj [(lit "error", Str (lit "No image data provided"))]))
     else
     let API_KEY := env_var env "GEMINI_API_KEY" in
     if negb (truthy API_KEY) then
       Ret (res_json 500
              (Obj [(lit "error", Str (lit "Server configuration error: Missing API Key"))]))
     else
     key ← to_string API_KEY;
     let url := models ++ lit "gemini-2.0-flash-exp:generateContent?key=" ++ key in
     response ← fetch url
       (generate_content prompt_001 (or_else mediaType (Str (lit "image/png"))) imageData);
     if negb (ok response) then
       let errorText := reply_text response in
       throw_Error (lit "Gemini API Error: " ++ decimal (reply_status response)
                      ++ lit " - " ++ errorText)
     else
     data ← response_json url response;
     candidates ← get data (lit "candidates");
     generatedText ← get_chain candidates
                       [lit "0"; lit "content"; lit "parts"; lit "0"; lit "text"];
     if negb (truthy generatedText) then
       throw_Error (lit "No data returned from AI")
     else
     unfenced ← call_replace generatedText fence_json [];
     let jsonString := trim (replace_all fence [] unfenced) in
     patients ← JSON_parse jsonString;
     Ret (res_json 200 patients))
    (fun error =>
       Ret (res_json 500 (Obj [(lit "error", Str (message error))]))).

(** *** [part_002] *)
Definition process_image_002
    (env : gmap string jsstring) (req : Request) : prog Response :=
  try_catch
    (imageData ← destructure (req_body req) (lit "imageData");
     mediaType ← destructure (req_body req) (lit "mediaType");
     if negb (truthy (env_var env "GEMINI_API_KEY")) then
       throw_Error (lit "GEMINI_API_KEY no está configurada en .env")
     else
     key ← to_string (env_var env "GEMINI_API_KEY");
     let apiURL := models ++ lit "gemini-2.0-flash:generateContent?key=" ++ key in
     response ← fetch apiURL (generate_content prompt_002 mediaType imageData);
     json ← response_json apiURL response;
     blocked ← and_ (get json (lit "promptFeedback"))
                    (get_path json [lit "promptFeedback"; lit "blockReason"]);
     if truthy blocked then
       reason ← get_path json [lit "promptFeedback"; lit "blockReason"];
       msg ← to_string reason;
       throw_Error (lit "Contenido bloqueado por seguridad: " ++ msg)
     else
     invalid ← or_ (not_ (get json (lit "candidates")))
                   (not_ (get_path json [lit "candidates"; lit "0"]));
     if truthy invalid then
       throw_Error (lit "Respuesta inválida del modelo. Verifica los logs para más detalles.")
     else
     candidate ← get_path json [lit "candidates"; lit "0"];
     filtered ← or_ (is_ (get candidate (lit "finishReason")) "SAFETY")
                    (is_ (get candidate (lit "finishReason")) "RECITATION");
     if truthy filtered then
       reason ← get candidate (lit "finishReason");
       msg ← to_string reason;
       throw_Error (lit "Contenido filtrado por: " ++ msg)
     else
     text ← get_path json candidate_text;
     rawText ← call_trim text;
     let cleanJson := strip_fences rawText in
     try_let (JSON_parse cleanJson)
       (fun err =>
          Ret (res_json 400
                 (Obj [(lit "error", Str (lit "Error al parsear respuesta del modelo"));
                       (lit "raw", Str cleanJson)])))
       (fun parsed => Ret (res_json 200 parsed)))
    (fun error =>
       Ret (res_json 500 (Obj [(lit "error", Str (message error))]))).

End Handlers.

(** ** The four applications *)

Inductive variant :=
| Server     (* src/server.js *)
| Part000
| Part001
| Part002.

Section Apps.
Context `{Engine} `{Express}.

(** [POST /api/process-image] *)
Definition process_image (v : variant)
  : gmap string jsstring -> Request -> prog Response :=
  match v with
  | Server => process_image_vercel "gemini-1.5-pro" prompt_server
  | Part000 => process_image_vercel "gemini-2.0-flash" prompt_000
  | Part001 => process_image_001
  | Part002 => process_image_002
  end.

(** [GET /api/health]; [now] is [new Date().toISOString()]. *)
Definition health (now : jsstring) (env : gmap string jsstring) : Response :=
  res_json 200
    (Obj [(lit "status", Str (lit "ok"));
          (lit "timestamp", Str now);
          (lit "hasApiKey",
           Bool (truthy (or_else (env_var env "GEMINI_API_KEY")
                                 (env_var env "GOOGLE_API_KEY"))));
          (lit "nodeEnv", env_var env "NODE_ENV");
          (lit "port",
           or_else (env_var env "PORT")
                   (Num (number_of_nat 3001)))]).

(** [app.use('*', ...)], which Express 4 dispatches every request to. *)
Definition not_found : Response :=
  res_json 404 (Obj [(lit "error", Str (lit "Ruta no encontrada"))]).

(** The stack of [src/server.js] and [part_000]: the library middleware, the
    two routes, the catch-all. *)
Definition app_vercel (v : variant) (now : jsstring)
    (env : gmap string jsstring) (req : Request) : prog Response :=
  match library_middleware req with
  | Some r => Ret r
  | None =>
      if route_matches "POST" "/api/process-image" req then process_image v env req
      else if route_matches "GET" "/api/health" req then Ret (health now env)
      else Ret not_found
  end.

(** The stack of [part_001] and [part_002]: the library middleware and one
    route; a request that nothing answers reaches Express's final handler. *)
Definition app_plain (v : variant)
    (env : gmap string jsstring) (req : Request) : prog Response :=
  match library_middleware req with
  | Some r => Ret r
  | None =>
      if route_matches "POST" "/api/process-image" req then process_image v env req
      else Ret (final_handler req)
  end.

Definition app (v : variant) (now : jsstring)
    (env : gmap string jsstring) (req : Request) : prog Response :=
  match v with
  | Server | Part000 => app_vercel v now env req
  | Part001 | Part002 => app_plain v env req
  end.



End Apps.

(** The response of a program and the upstream calls it makes. *)
Definition response_of {A} (up : upstream) (m : prog A) : error + A := fst (run up m).
Definition calls_of {A} (up : upstream) (m : prog A) : list (jsstring * value) :=
  snd (run up m).

(** ** A sample engine and a sample Express

    Used where a statement is evaluated on a concrete request: messages worded
    after V8 and node-fetch, routes matched on the exact method and path, no
    library middleware ending the request. *)

(** [x * 10^d] as a fraction, for the fraction [x = (p, q)]. *)
Definition scale10 (x : Z * Z) (d : Z) : Z * Z :=
  (if 0 <=? d then (x.1 * 10 ^ d, x.2) else (x.1, x.2 * 10 ^ (- d)))%Z.

(** The least [n] from [lo] on with [x < 10^n], looked for in [fuel] steps. *)
Fixpoint magnitude (fuel : nat) (x : Z * Z) (lo : Z) : Z :=
  match fuel with
  | O => lo
  | S fuel' =>
      let y := scale10 x (- lo) in
      if (y.1 <? y.2)%Z then lo else magnitude fuel' x (lo + 1)
  end.

(** The digits [s] (with [k] digits) and the exponent [n] such that
    [s * 10^(n-k)] is the number, [k] as small as possible. *)
Fixpoint shortest (fuel : nat) (k : Z) (v : number) (x : Z * Z) (n : Z) : Z * Z * Z :=
  let y := scale10 x (k - n) in
  let lo := (y.1 / y.2)%Z in
  let hi := (lo + 1)%Z in
  let ok s := match binary64 false (Z.to_N s) (n - k) with
              | S754_finite _ m e => match v with
                                     | S754_finite _ m' e' => (m =? m')%positive && (e =? e')%Z
                                     | _ => false
                                     end
              | _ => false
              end in
  let nearer_lo :=
    let twice := (2 * y.1 - 2 * lo * y.2)%Z in   (* 2 * (x - lo) * q *)
    ((twice <? y.2) || ((twice =? y.2) && Z.even lo))%Z in
  let pick s := if (s =? 10 ^ k)%Z then (10 ^ (k - 1), k, n + 1)%Z else (s, k, n) in
  match fuel with
  | O => (lo, k, n)
  | S fuel' =>
      match ok lo, ok hi with
      | true, true => if nearer_lo then pick lo else pick hi
      | true, false => pick lo
      | false, true => pick hi
      | false, false => shortest fuel' (k + 1) v x n
      end
  end.

Definition digits_of (s : Z) : jsstring := decimal (Z.to_N s).

(** Number::toString for the positive finite number [m * 2^e]: the shortest
    digits that read back as the number, laid out as ECMAScript does. *)
Definition print_positive (m : positive) (e : Z) : jsstring :=
  let x := (if 0 <=? e then (Z.pos m * 2 ^ e, 1) else (Z.pos m, 2 ^ (- e)))%Z in
  let est := ((Z.log2 x.1 - Z.log2 x.2) * 30103 / 100000 - 2)%Z in
  let n0 := magnitude 8 x est in
  let '(s, k, n) := shortest 17 1 (S754_finite false m e) x n0 in
  let ds := digits_of s in
  let kn := Z.to_nat k in
  if ((k <=? n) && (n <=? 21))%Z then ds ++ repeat 48%N (Z.to_nat (n - k))
  else if ((0 <? n) && (n <=? 21))%Z then
    take (Z.to_nat n) ds ++ lit "." ++ drop (Z.to_nat n) ds
  else if ((-6 <? n) && (n <=? 0))%Z then
    lit "0." ++ repeat 48%N (Z.to_nat (- n)) ++ ds
  else
    let ex := (if (n - 1 <? 0)%Z then lit "-" else lit "+")
              ++ decimal (Z.to_N (Z.abs (n - 1))) in
    match ds with
    | [d] => [d] ++ lit "e" ++ ex
    | d :: rest => [d] ++ lit "." ++ rest ++ lit "e" ++ ex
    | [] => []
    end.

(** Number::toString *)
Definition sample_number_to_string (n : number) : jsstring :=
  match n with
  | S754_zero _ => lit "0"
  | S754_nan => lit "NaN"
  | S754_infinity s => (if s then lit "-" else []) ++ lit "Infinity"
  | S754_finite s m e => (if s then lit "-" else []) ++ print_positive m e
  end.

Definition sample_engine : Engine :=
  {| type_error_message t :=
       match t with
       | ReadOfNullish b p =>
           lit "Cannot read properties of "
           ++ (match b with Null => lit "null" | _ => lit "undefined" end)
           ++ lit " (reading '" ++ p ++ lit "')"
       | DestructureNullish b =>
           lit "Cannot destructure 'req.body' as it is "
           ++ (match b with Null => lit "null" | _ => lit "undefined" end) ++ lit "."
       | NotAFunction p => p ++ lit " is not a function"
       | NotPrimitive => lit "Cannot convert object to primitive value"
       end;
     json_syntax_message s := lit "Unexpected token in JSON: " ++ s;
     invalid_json_body_message url m :=
       lit "invalid json response body at " ++ url ++ lit " reason: " ++ m;
     number_to_string := sample_number_to_string |}.

Definition sample_express : Express :=
  {| route_matches m p req :=
       eqb (req_method req) (lit m) && eqb (req_path req) (lit p);
     library_middleware _ := None;
     final_handler req :=
       {| res_status := 404;
          res_body := Page (lit "Cannot " ++ req_method req ++ lit " " ++ req_path req) |} |}.



(** ** The notions of the specification *)

(** The credential a variant resolves from the environment. *)
Definition credential (v : variant) (env : gmap string jsstring) : value :=
  match v with
  | Server | Part000 =>
      or_else (env_var env "GEMINI_API_KEY") (env_var env "GOOGLE_API_KEY")
  | Part001 | Part002 => env_var env "GEMINI_API_KEY"
  end.

(** The configuration error of each variant. *)
Definition configuration_error (v : variant) : Response :=
  match v with
  | Server | Part000 =>
      res_json 500
        (Obj [(lit "error", Str (lit "API key no está configurada. Verifica las variables de entorno en Vercel."));
              (lit "note", Str (lit "Verifica que la API key esté configurada en Vercel Environment Variables"))])
  | Part001 =>
      res_json 500
        (Obj [(lit "error", Str (lit "Server configuration error: Missing API Key"))])
  | Part002 =>
      res_json 500
        (Obj [(lit "error", Str (lit "GEMINI_API_KEY no está configurada en .env"))])
  end.

(** The client error of the variant that validates its input. *)
Definition no_image_data : Response :=
  res_json 400 (Obj [(lit "error", Str (lit "No image data provided"))]).

(** Whether the variant checks that [imageData] is present. *)
Definition validates_input (v : variant) : bool :=
  match v with Part001 => true | _ => false end.

(** Whether the variant logs [parsed.length] before it answers. *)
Definition logs_length (v : variant) : bool :=
  match v with Server | Part000 => true | _ => false end.

(** A request that carries a body with image data. *)
Definition submits_image (req : Request) : Prop :=
  nullish (req_body req) = false
  /\ truthy (field (req_body req) (lit "imageData")) = true.

(** The upstream answers every call with the reply [r]. *)
Definition answers (up : upstream) (r : reply) : Prop :=
  forall u b, up u b = Resolved r.

(** The reply is a success whose first candidate carries the text [t]: a
    success status, a JSON body without [error], without a block reason,
    whose first candidate was not filtered. *)
Definition generated (r : reply) (t : jsstring) : Prop :=
  ok r = true
  /\ exists json,
       JSON.parse (reply_text r) = Some json
       /\ truthy (field json (lit "error")) = false
       /\ at_path json candidate_text = Str t
       /\ truthy (at_path json [lit "promptFeedback"; lit "blockReason"]) = false
       /\ is_string (at_path json [lit "candidates"; lit "0"; lit "finishReason"])
            (lit "SAFETY") = false
       /\ is_string (at_path json [lit "candidates"; lit "0"; lit "finishReason"])
            (lit "RECITATION") = false.

(** The text [t] is the JSON text [j], possibly wrapped in markdown fences and
    white space. *)
Definition fenced (j t : jsstring) : Prop :=
  exists w1 o c w2,
    t = w1 ++ o ++ j ++ c ++ w2
    /\ forallb is_white_space w1 = true
    /\ forallb is_white_space w2 = true
    /\ (o = [] \/ o = fence \/ o = fence_json)
    /\ (c = [] \/ c = fence).

(** A pattern without white space. *)
Definition solid (p : jsstring) : Prop :=
  forallb (fun c => negb (is_white_space c)) p = true.

(** ** Sample inputs *)

Definition post (body : value) : Request :=
  {| req_method := lit "POST"; req_path := lit "/api/process-image";
     req_body := body |}.

Definition with_key : gmap string jsstring := {[ "GEMINI_API_KEY" := lit "AIzaSy-sample" ]}.

Definition image_png : value :=
  Obj [(lit "imageData", Str (lit "iVBORw0KGgo=")); (lit "mediaType", Str (lit "image/png"))].

(** A string as a JSON string literal (for the samples: quotes, backslashes
    and line feeds escaped). *)
Definition json_quote (s : jsstring) : jsstring :=
  dq ++ flat_map (fun c => if (c =? 34)%N then [92; 34]%N
                           else if (c =? 92)%N then [92; 92]%N
                           else if (c =? 10)%N then [92; 110]%N
                           else [c]) s ++ dq.

(** A successful reply whose first candidate carries the text [t]. *)
Definition text_reply (t : jsstring) : reply :=
  {| reply_status := 200;
     reply_text :=
       lit "{" ++ q "candidates" ++ lit ":[{" ++ q "content" ++ lit ":{"
       ++ q "parts" ++ lit ":[{" ++ q "text" ++ lit ":" ++ json_quote t
       ++ lit "}]}," ++ q "finishReason" ++ lit ":" ++ q "STOP" ++ lit "}]}" |}.

(** A reply that reports a prompt blocked for safety, without candidates. *)
Definition blocked_reply : reply :=
  {| reply_status := 200;
     reply_text :=
       lit "{" ++ q "promptFeedback" ++ lit ":{" ++ q "blockReason" ++ lit ":"
       ++ q "SAFETY" ++ lit "}}" |}.

(** A reply with a non-success status and the error body of the upstream. *)
Definition quota_reply : reply :=
  {| reply_status := 429;
     reply_text :=
       lit "{" ++ q "error" ++ lit ":{" ++ q "code" ++ lit ":429,"
       ++ q "message" ++ lit ":" ++ q "Quota exceeded" ++ lit ","
       ++ q "status" ++ lit ":" ++ q "RESOURCE_EXHAUSTED" ++ lit "}}" |}.

Definition always (r : reply) : upstream := fun _ _ => Resolved r.

(** The text of the end-to-end scenario of the specification. *)
Definition scenario_json : jsstring :=
  lit "[{" ++ q "FECHA" ++ lit ":" ++ q "2025/01/01" ++ lit "," ++ q "HORA" ++ lit ":"
  ++ q "09:00" ++ lit "," ++ q "NOMBRE" ++ lit ":" ++ q "ANA LOPEZ" ++ lit ","
  ++ q "IDENTIDAD" ++ lit ":" ++ q "12345" ++ lit "," ++ q "EDAD" ++ lit ":" ++ q "40"
  ++ lit "}]".

Definition scenario_text : jsstring :=
  lit "```json" ++ [10%N] ++ scenario_json ++ [10%N] ++ lit "```".

Definition scenario_value : value :=
  Arr [Obj [(lit "FECHA", Str (lit "2025/01/01")); (lit "HORA", Str (lit "09:00"));
            (lit "NOMBRE", Str (lit "ANA LOPEZ")); (lit "IDENTIDAD", Str (lit "12345"));
            (lit "EDAD", Str (lit "40"))]].

(** What a variant answers when it catches an error. *)
Definition caught (var : variant) (msg : jsstring) : Response :=
  match var with
  | Server | Part000 =>
      res_json 500
        (Obj [(lit "error", Str msg);
              (lit "note", Str (lit "Verifica que la API key esté configurada en Vercel Environment Variables"))])
  | Part001 | Part002 => res_json 500 (Obj [(lit "error", Str msg)])
  end.

(** ** The shape of a handler *)

(** The program has answered with a response that satisfies [P]. *)
Definition settled {A} (P : A -> Prop) (m : prog A) : Prop :=
  match m with Ret a => P a | _ => False end.

(** The program answers, without a call and with [P0], or after exactly one
    call, whatever its outcome [o], and with [P1 o]; it never ends in an
    exception. *)
Definition one_call {A} (P0 : A -> Prop) (P1 : outcome -> A -> Prop) (m : prog A)
  : Prop :=
  match m with
  | Ret a => P0 a
  | Throw _ => False
  | Fetch _ _ k => forall o, settled (P1 o) (k o)
  end.

(** A computation that makes no call. *)
Definition pure {A} (m : prog A) : Prop :=
  match m with Fetch _ _ _ => False | _ => True end.

(** The body of the answer to a text that does not parse. *)
Definition parse_error (raw : jsstring) : Response :=
  res_json 400
    (Obj [(lit "error", Str (lit "Error al parsear respuesta del modelo"));
          (lit "raw", Str raw)]).

(** What a variant can answer before it calls the upstream. *)
Definition before_call (var : variant) (req : Request) (r : Response) : Prop :=
  (validates_input var = true
   /\ truthy (field (req_body req) (lit "imageData")) = false
   /\ r = no_image_data)
  \/ exists msg, r = caught var msg.

(** The call resolved with a reply whose body is JSON and carries the string
    [t] as the text of its first candidate. *)
Definition carries_text (o : outcome) (t : jsstring) : Prop :=
  exists rep json,
    o = Resolved rep
    /\ JSON.parse (reply_text rep) = Some json
    /\ at_path json candidate_text = Str t.

(** What a variant can answer after the upstream call, whose outcome is [o]:
    the value that the cleaned text of the reply parses to, that text when it
    does not parse, or an error. *)
Definition after_call (var : variant) (o : outcome) (r : Response) : Prop :=
  (exists t v,
     carries_text o t
     /\ JSON.parse (strip_fences t) = Some v
     /\ (logs_length var = true -> v <> Null)
     /\ r = res_json 200 v)
  \/ (validates_input var = false
      /\ exists t,
           carries_text o t
           /\ JSON.parse (strip_fences t) = None
           /\ r = parse_error (strip_fences t))
  \/ exists msg, r = caught var msg.

(** The model a variant calls and the instruction it sends. *)
Definition model_of (var : variant) : string :=
  match var with
  | Server => "gemini-1.5-pro"
  | Part000 | Part002 => "gemini-2.0-flash"
  | Part001 => "gemini-2.0-flash-exp"
  end.

Definition prompt_of (var : variant) : jsstring :=
  match var with
  | Server => prompt_server
  | Part000 => prompt_000
  | Part001 => prompt_001
  | Part002 => prompt_002
  end.

(** The address of the upstream call for a key. *)
Definition endpoint (var : variant) (key : jsstring) : jsstring :=
  models ++ lit (model_of var) ++ lit ":generateContent?key=" ++ key.

(** The media type a variant sends for the one it received. *)
Definition media_type_sent (var : variant) (mediaType : value) : value :=
  if validates_input var then or_else mediaType (Str (lit "image/png"))
  else mediaType.

(** More sample replies. *)
Definition filtered_reply : reply :=
  {| reply_status := 200;
     reply_text :=
       lit "{" ++ q "candidates" ++ lit ":[{" ++ q "content" ++ lit ":{"
       ++ q "parts" ++ lit ":[{" ++ q "text" ++ lit ":" ++ json_quote (lit "[]")
       ++ lit "}]}," ++ q "finishReason" ++ lit ":" ++ q "RECITATION" ++ lit "}]}" |}.

Definition blocked_with_candidates : reply :=
  {| reply_status := 200;
     reply_text :=
       lit "{" ++ q "candidates" ++ lit ":[{" ++ q "finishReason" ++ lit ":"
       ++ q "STOP" ++ lit "}]," ++ q "promptFeedback" ++ lit ":{"
       ++ q "blockReason" ++ lit ":" ++ q "OTHER" ++ lit "}}" |}.

Definition html_reply : reply :=
  {| reply_status := 200; reply_text := lit "<html>Bad Gateway</html>" |}.

Definition empty_candidate_reply : reply :=
  {| reply_status := 200;
     reply_text :=
       lit "{" ++ q "candidates" ++ lit ":[{" ++ q "finishReason" ++ lit ":"
       ++ q "STOP" ++ lit "}]}" |}.

(** A reply with the body of [text_reply] and the status of a failure. *)
Definition failed_text_reply (t : jsstring) : reply :=
  {| reply_status := 503; reply_text := reply_text (text_reply t) |}.

(** A request for the health route. *)
Definition get_health : Request :=
  {| req_method := lit "GET"; req_path := lit "/api/health"; req_body := Undefined |}.



(** * Properties *)

(** ** Strings *)

Section StringFacts.

Lemma starts_with_spec (p s : jsstring) :
  starts_with p s = true <-> exists b, s = p ++ b.
Proof.
  revert s. induction p as [|a p IH]; intros s; simpl.
  - split; [intros _; by exists s | done].
  - destruct s as [|b s]; [split; [done | intros [? ?]; done] |].
    rewrite andb_true_iff, N.eqb_eq, IH. split.
    + intros [-> [t ->]]. by exists t.
    + intros [t Ht]. injection Ht as -> ->. eauto.
Qed.

Lemma includes_spec (p s : jsstring) :
  includes p s = true <-> exists a b, s = a ++ p ++ b.
Proof.
  induction s as [|c s IH]; simpl.
  - rewrite starts_with_spec. split.
    + intros [b Hb]. by exists [], b.
    + intros (a & b & Hab). symmetry in Hab.
      apply app_eq_nil in Hab as [-> Hab]. eauto.
  - rewrite orb_true_iff, starts_with_spec, IH. split.
    + intros [[b Hb] | (a & b & ->)]; [by exists [], b | by exists (c :: a), b].
    + intros ([|c' a] & b & Hab); simpl in Hab.
      * left. eauto.
      * right. injection Hab as -> ->. eauto.
Qed.

Lemma includes_infix (p a s b : jsstring) :
  includes p (a ++ s ++ b) = false -> includes p s = false.
Proof.
  intros Hn. destruct (includes p s) eqn:Hs; [| done].
  apply includes_spec in Hs as (x & y & ->).
  assert (includes p (a ++ (x ++ p ++ y) ++ b) = true) as Ht; [| congruence].
  apply includes_spec. exists (a ++ x), (y ++ b). by rewrite <- !app_assoc.
Qed.

Lemma includes_longer (p p' s : jsstring) :
  includes p s = false -> includes (p ++ p') s = false.
Proof.
  intros Hn. destruct (includes (p ++ p') s) eqn:Hs; [| done].
  apply includes_spec in Hs as (x & y & ->).
  assert (includes p (x ++ (p ++ p') ++ y) = true) as Ht; [| congruence].
  apply includes_spec. exists x, (p' ++ y). by rewrite <- !app_assoc.
Qed.

(** *** replace *)

Lemma replace_from_skip (p r : jsstring) (k : nat) (s : jsstring) :
  replace_from p r k s = replace_from p r 0 (drop k s).
Proof.
  revert k. induction s as [|c s IH]; intros [|k]; try done.
  simpl. apply IH.
Qed.

Lemma replace_all_cons (p r : jsstring) (c : N) (s : jsstring) :
  replace_all p r (c :: s) =
    if starts_with p (c :: s)
    then r ++ replace_all p r (drop (length p - 1) s)
    else c :: replace_all p r s.
Proof.
  unfold replace_all. simpl replace_from at 1.
  destruct (starts_with p (c :: s)); [| done].
  by rewrite replace_from_skip.
Qed.

Lemma replace_all_nil (p r : jsstring) : replace_all p r [] = [].
Proof. done. Qed.

(** A string without a match is left as it is. *)
Lemma replace_all_id (p r s : jsstring) :
  includes p s = false -> replace_all p r s = s.
Proof.
  induction s as [|c s IH]; [done |].
  simpl. intros [Hc Hs]%orb_false_iff.
  rewrite replace_all_cons. simpl starts_with. rewrite Hc. f_equal. by apply IH.
Qed.

(** *** trim *)

Lemma trim_end_idem (s : jsstring) : trim_end (trim_end s) = trim_end s.
Proof.
  induction s as [|c s IH]; [done |]. simpl.
  destruct (trim_end s) as [|d t] eqn:Ht.
  - destruct (is_white_space c) eqn:Hc; [done |]. simpl. by rewrite Hc.
  - simpl. simpl in IH. by rewrite IH.
Qed.

Lemma trim_end_head (c : N) (s : jsstring) :
  is_white_space c = false -> exists t, trim_end (c :: s) = c :: t.
Proof.
  intros Hc. simpl. destruct (trim_end s); [rewrite Hc |]; eauto.
Qed.

Lemma trim_start_shape (s : jsstring) :
  trim_start s = [] \/
  exists c t, trim_start s = c :: t /\ is_white_space c = false.
Proof.
  induction s as [|c s IH]; [by left |]. simpl.
  destruct (is_white_space c) eqn:Hc; [done | right; eauto].
Qed.

Lemma trim_start_fixed (c : N) (s : jsstring) :
  is_white_space c = false -> trim_start (c :: s) = c :: s.
Proof. intros Hc. simpl. by rewrite Hc. Qed.

Lemma trim_idem (s : jsstring) : trim (trim s) = trim s.
Proof.
  unfold trim. destruct (trim_start_shape s) as [-> | (c & t & -> & Hc)]; [done |].
  destruct (trim_end_head c t Hc) as [t' Ht']. rewrite Ht'.
  rewrite (trim_start_fixed c t' Hc), <- Ht'. apply trim_end_idem.
Qed.

Lemma trim_start_suffix (s : jsstring) :
  exists a, s = a ++ trim_start s /\ forallb is_white_space a = true.
Proof.
  induction s as [|c s (a & Ha & Hw)]; [by exists [] |]. simpl.
  destruct (is_white_space c) eqn:Hc; [| by exists []].
  exists (c :: a). simpl. rewrite Hc, Hw. split; [by f_equal | done].
Qed.

Lemma trim_end_prefix (s : jsstring) :
  exists b, s = trim_end s ++ b /\ forallb is_white_space b = true.
Proof.
  induction s as [|c s (b & Hb & Hw)]; [by exists [] |]. simpl.
  destruct (trim_end s) as [|d t] eqn:Ht.
  - simpl in Hb. subst b.
    destruct (is_white_space c) eqn:Hc.
    + exists (c :: s). simpl. by rewrite Hc, Hw.
    + by exists s.
  - exists b. split; [| done]. simpl. by f_equal.
Qed.

Lemma trim_infix (s : jsstring) :
  exists a b, s = a ++ trim s ++ b
              /\ forallb is_white_space a = true
              /\ forallb is_white_space b = true.
Proof.
  destruct (trim_start_suffix s) as (a & Ha & Hwa).
  destruct (trim_end_prefix (trim_start s)) as (b & Hb & Hwb).
  exists a, b. unfold trim. by rewrite <- Hb.
Qed.

(** *** The fences *)

Lemma replace_fence_match (b : jsstring) :
  replace_all fence [] (fence ++ b) = replace_all fence [] b.
Proof.
  change (fence ++ b) with (96%N :: 96%N :: 96%N :: b).
  rewrite replace_all_cons.
  change (starts_with fence (96%N :: 96%N :: 96%N :: b)) with true.
  reflexivity.
Qed.

Lemma repeat_backticks_fence (k : nat) (b : jsstring) :
  exists b', fence ++ repeat 96%N k ++ b = repeat 96%N k ++ b'.
Proof.
  exists (fence ++ b). change fence with (repeat 96%N 3).
  rewrite !app_assoc. f_equal. by rewrite <- !repeat_app, Nat.add_comm.
Qed.

(** Removing the fences leaves no run of three backticks: what remains of a
    run is its length modulo three. *)
Lemma unfenced_run (n : nat) (s : jsstring) :
  length s <= n ->
  includes fence (replace_all fence [] s) = false
  /\ forall k, starts_with (repeat 96%N k) (replace_all fence [] s) = true ->
               starts_with (repeat 96%N k) s = true.
Proof.
  revert s. induction n as [|n IH]; intros s Hn.
  { destruct s; [| simpl in Hn; lia]. split; [done |]. by intros [|k]. }
  destruct s as [|c s]; [split; [done | by intros [|k]] |].
  destruct (starts_with fence (c :: s)) eqn:Hm.
  - apply starts_with_spec in Hm as [b Hb]. rewrite Hb in *.
    assert (length b <= n) as Hb'.
    { change (fence ++ b) with (96%N :: 96%N :: 96%N :: b) in Hn.
      simpl in Hn. lia. }
    rewrite replace_fence_match. destruct (IH b Hb') as [Hi Hrun].
    split; [done |]. intros k Hk. apply Hrun in Hk.
    apply starts_with_spec in Hk as [b' ->].
    destruct (repeat_backticks_fence k b') as [b'' ->].
    apply starts_with_spec. eauto.
  - assert (length s <= n) as Hs by (simpl in Hn; lia).
    destruct (IH s Hs) as [Hi Hrun].
    assert (forall k, starts_with (repeat 96%N k) (c :: replace_all fence [] s) = true ->
                      starts_with (repeat 96%N k) (c :: s) = true) as Hrun'.
    { intros [|k]; [done |]. simpl.
      intros [Hc Hk]%andb_true_iff. rewrite Hc. simpl. by apply Hrun. }
    rewrite replace_all_cons, Hm. split; [| done].
    change (includes fence (c :: replace_all fence [] s))
      with (starts_with fence (c :: replace_all fence [] s)
            || includes fence (replace_all fence [] s)).
    rewrite Hi, orb_false_r.
    destruct (starts_with fence (c :: replace_all fence [] s)) eqn:Hf; [| done].
    apply (Hrun' 3) in Hf. change (repeat 96%N 3) with fence in Hf. congruence.
Qed.

Lemma unfenced (s : jsstring) : includes fence (replace_all fence [] s) = false.
Proof. exact (proj1 (unfenced_run (length s) s (le_n _))). Qed.

Lemma strip_fences_clean (s : jsstring) :
  includes fence (strip_fences s) = false.
Proof.
  unfold strip_fences.
  destruct (trim_infix (replace_all fence [] (replace_all fence_json [] s)))
    as (a & b & Hab & _).
  apply (includes_infix fence a _ b). rewrite <- Hab. apply unfenced.
Qed.

Lemma trim_start_ws (w s : jsstring) :
  forallb is_white_space w = true -> trim_start (w ++ s) = trim_start s.
Proof.
  induction w as [|c w IH]; [done |]. simpl.
  intros [Hc Hw]%andb_true_iff. rewrite Hc. by apply IH.
Qed.

Lemma trim_end_all_ws (w : jsstring) :
  forallb is_white_space w = true -> trim_end w = [].
Proof.
  induction w as [|c w IH]; [done |]. simpl.
  intros [Hc Hw]%andb_true_iff. by rewrite (IH Hw), Hc.
Qed.

Lemma trim_end_ws (s w : jsstring) :
  forallb is_white_space w = true -> trim_end (s ++ w) = trim_end s.
Proof.
  intros Hw. induction s as [|c s IH]; [by apply trim_end_all_ws |].
  simpl. by rewrite IH.
Qed.

(** White space around a text does not change what trimming leaves. *)
Lemma trim_ws (w1 s w2 : jsstring) :
  forallb is_white_space w1 = true -> forallb is_white_space w2 = true ->
  trim (w1 ++ s ++ w2) = trim s.
Proof.
  intros H1 H2. unfold trim. rewrite (trim_start_ws w1 _ H1).
  induction s as [|c s IH].
  - simpl. rewrite <- (app_nil_r w2), trim_start_ws by done. done.
  - change ((c :: s) ++ w2) with (c :: (s ++ w2)). cbn [trim_start].
    destruct (is_white_space c); [done |].
    change (c :: s ++ w2) with ((c :: s) ++ w2). by apply trim_end_ws.
Qed.

Lemma starts_with_ws_head (p : jsstring) (w : N) (b : jsstring) :
  solid p -> p <> [] -> is_white_space w = true -> starts_with p (w :: b) = false.
Proof.
  destruct p as [|a p]; [done |]. unfold solid. simpl.
  intros [Ha _]%andb_true_iff _ Hw.
  destruct (N.eqb_spec a w) as [-> |]; [| done]. by rewrite Hw in Ha.
Qed.

Lemma replace_all_ws_prefix (p r a x : jsstring) :
  solid p -> p <> [] -> forallb is_white_space a = true ->
  replace_all p r (a ++ x) = a ++ replace_all p r x.
Proof.
  intros Hp Hn. induction a as [|w a IH]; [done |]. simpl.
  intros [Hw Ha]%andb_true_iff.
  rewrite replace_all_cons, (starts_with_ws_head p w _ Hp Hn Hw). f_equal. by apply IH.
Qed.

Lemma starts_with_app_ws (p x b : jsstring) :
  solid p -> forallb is_white_space b = true ->
  starts_with p (x ++ b) = starts_with p x.
Proof.
  intros Hp Hb. revert x Hp. induction p as [|a p IH]; intros x Hp; [done |].
  destruct x as [|c x].
  - destruct b as [|w b]; [done |]. simpl in Hb.
    apply andb_true_iff in Hb as [Hw _].
    by apply starts_with_ws_head.
  - simpl. rewrite IH; [done |]. unfold solid in *. simpl in Hp.
    by apply andb_true_iff in Hp as [_ Hp].
Qed.

Lemma replace_all_match (p r s : jsstring) :
  p <> [] -> replace_all p r (p ++ s) = r ++ replace_all p r s.
Proof.
  destruct p as [|a p]; [done |]. intros _.
  change ((a :: p) ++ s) with (a :: (p ++ s)). rewrite replace_all_cons.
  assert (starts_with (a :: p) (a :: p ++ s) = true) as ->.
  { apply starts_with_spec. by exists s. }
  replace (length (a :: p) - 1) with (length p) by (simpl; lia).
  by rewrite drop_app_length.
Qed.

Lemma replace_all_all_ws (p r b : jsstring) :
  solid p -> p <> [] -> forallb is_white_space b = true ->
  replace_all p r b = b.
Proof.
  intros Hp Hn Hb. rewrite <- (app_nil_r b) at 1.
  rewrite replace_all_ws_prefix by done. apply app_nil_r.
Qed.

Lemma replace_all_ws_suffix (p r b : jsstring) (n : nat) : forall x,
  length x <= n ->
  solid p -> p <> [] -> forallb is_white_space b = true ->
  replace_all p r (x ++ b) = replace_all p r x ++ b.
Proof.
  induction n as [|n IH]; intros x Hx Hp Hn Hb.
  { destruct x; [| simpl in Hx; lia]. by apply replace_all_all_ws. }
  destruct x as [|c x]; [by apply replace_all_all_ws |].
  destruct (starts_with p (c :: x)) eqn:Hm.
  - apply starts_with_spec in Hm as [rest Hr]. rewrite Hr in *.
    rewrite <- app_assoc, !replace_all_match by done.
    rewrite <- app_assoc. f_equal. apply IH; try done.
    rewrite length_app in Hx. destruct p; [done |]. simpl in Hx. lia.
  - change ((c :: x) ++ b) with (c :: (x ++ b)).
    rewrite !replace_all_cons.
    change (c :: x ++ b) with ((c :: x) ++ b).
    rewrite (starts_with_app_ws p (c :: x) b Hp Hb), Hm.
    simpl. f_equal. apply IH; try done. simpl in Hx. lia.
Qed.

(** White space around a text stays where it is when the fences go. *)
Lemma replace_all_ws (p r a x b : jsstring) :
  solid p -> p <> [] ->
  forallb is_white_space a = true -> forallb is_white_space b = true ->
  replace_all p r (a ++ x ++ b) = a ++ replace_all p r x ++ b.
Proof.
  intros Hp Hn Ha Hb. rewrite replace_all_ws_prefix by done. f_equal.
  by apply (replace_all_ws_suffix p r b (length x)).
Qed.

Lemma solid_fence : solid fence.
Proof. done. Qed.

Lemma solid_fence_json : solid fence_json.
Proof. done. Qed.

(** The variants that trim before they strip and the variant that does not
    clean the text alike. *)
Lemma strip_fences_trim (t : jsstring) : strip_fences (trim t) = strip_fences t.
Proof.
  destruct (trim_infix t) as (a & b & Ht & Ha & Hb).
  unfold strip_fences. rewrite Ht at 2.
  rewrite (replace_all_ws fence_json) by done.
  rewrite (replace_all_ws fence) by done.
  by rewrite trim_ws.
Qed.

(** A text without fences that does not end in a backtick: no fence starts
    in it, whatever follows. *)
Lemma not_fence_start (j y : jsstring) :
  includes fence j = false -> j <> [] -> last j <> Some 96%N ->
  starts_with fence (j ++ y) = false.
Proof.
  intros Hi Hn Hl.
  destruct j as [|c1 [|c2 [|c3 j]]]; [done | | |].
  - change (starts_with fence ([c1] ++ y))
      with ((96 =? c1)%N && starts_with [96%N; 96%N] y).
    destruct (N.eqb_spec 96 c1) as [<- |]; done.
  - change (starts_with fence ([c1; c2] ++ y))
      with ((96 =? c1)%N && ((96 =? c2)%N && starts_with [96%N] y)).
    destruct (N.eqb_spec 96 c2) as [<- |]; [done |].
    by rewrite andb_false_r.
  - change (includes fence (c1 :: c2 :: c3 :: j))
      with (starts_with fence (c1 :: c2 :: c3 :: j) || includes fence (c2 :: c3 :: j)) in Hi.
    apply orb_false_iff in Hi as [Hs _].
    change (starts_with fence (c1 :: c2 :: c3 :: j))
      with ((96 =? c1)%N && ((96 =? c2)%N && ((96 =? c3)%N && true))) in Hs.
    change (starts_with fence ((c1 :: c2 :: c3 :: j) ++ y))
      with ((96 =? c1)%N && ((96 =? c2)%N && ((96 =? c3)%N && true))).
    done.
Qed.

Lemma starts_with_longer (p p' s : jsstring) :
  starts_with p s = false -> starts_with (p ++ p') s = false.
Proof.
  intros Hn. destruct (starts_with (p ++ p') s) eqn:Hs; [| done].
  apply starts_with_spec in Hs as [b ->].
  assert (starts_with p ((p ++ p') ++ b) = true) as Ht; [| congruence].
  apply starts_with_spec. exists (p' ++ b). by rewrite <- app_assoc.
Qed.

Lemma replace_all_pass (p' r j y : jsstring) :
  includes fence j = false -> last j <> Some 96%N ->
  replace_all (fence ++ p') r (j ++ y) = j ++ replace_all (fence ++ p') r y.
Proof.
  induction j as [|c j IH]; [done |]. intros Hi Hl.
  change ((c :: j) ++ y) with (c :: (j ++ y)). rewrite replace_all_cons.
  change (c :: j ++ y) with ((c :: j) ++ y).
  rewrite (starts_with_longer fence p') by (by apply not_fence_start).
  simpl. f_equal.
  change (includes fence (c :: j))
    with (starts_with fence (c :: j) || includes fence j) in Hi.
  apply orb_false_iff in Hi as [_ Hi]. apply IH; [done |].
  destruct j; [done |]. done.
Qed.

(** Unwrapping: the fences around a JSON text go, the text stays. *)
Lemma unwrap (o j c : jsstring) (h : N) (j' : jsstring) :
  j = h :: j' -> h <> 96%N -> h <> 106%N ->
  includes fence j = false -> last j <> Some 96%N ->
  (o = [] \/ o = fence \/ o = fence_json) -> (c = [] \/ c = fence) ->
  replace_all fence [] (replace_all fence_json [] (o ++ j ++ c)) = j.
Proof.
  intros Hj H96 H106 Hi Hl Ho Hc.
  assert (replace_all fence_json [] (j ++ c) = j ++ c) as H1.
  { change fence_json with (fence ++ lit "json").
    rewrite replace_all_pass by done. by destruct Hc as [-> | ->]. }
  assert (replace_all fence [] (j ++ c) = j) as H2.
  { change fence with (fence ++ []) at 1.
    rewrite replace_all_pass by done.
    destruct Hc as [-> | ->]; apply app_nil_r. }
  destruct Ho as [-> | [-> | ->]].
  - simpl. by rewrite H1.
  - assert (replace_all fence_json [] (fence ++ j ++ c) = fence ++ j ++ c) as ->.
    { rewrite <- H1 at 2. rewrite Hj.
      change (fence ++ (h :: j') ++ c) with (96%N :: 96%N :: 96%N :: h :: (j' ++ c)).
      apply N.eqb_neq in H96, H106. rewrite N.eqb_sym in H96. rewrite N.eqb_sym in H106.
      rewrite replace_all_cons.
      change (starts_with fence_json (96%N :: 96%N :: 96%N :: h :: j' ++ c))
        with ((106 =? h)%N && starts_with (lit "son") (j' ++ c)).
      rewrite H106. cbn [andb].
      rewrite replace_all_cons.
      change (starts_with fence_json (96%N :: 96%N :: h :: j' ++ c))
        with ((96 =? h)%N && starts_with (lit "json") (j' ++ c)).
      rewrite H96. cbn [andb].
      rewrite replace_all_cons.
      change (starts_with fence_json (96%N :: h :: j' ++ c))
        with ((96 =? h)%N && starts_with (lit "`json") (j' ++ c)).
      rewrite H96. cbn [andb].
      done. }
    by rewrite replace_fence_match.
  - rewrite replace_all_match by done. simpl. by rewrite H1.
Qed.

End StringFacts.

(** C2. Stripping the markdown fences (every "```json" removed, then every
    "```", then the surrounding white space) is idempotent: stripping twice
    gives what stripping once gives, for every string. *)
Theorem strip_fences_idempotent (s : jsstring) :
  strip_fences (strip_fences s) = strip_fences s.
Proof.
  pose proof (strip_fences_clean s) as Hclean.
  unfold strip_fences at 1.
  rewrite (replace_all_id fence_json []).
  - rewrite (replace_all_id fence []); [| done]. apply trim_idem.
  - change fence_json with (fence ++ lit "json"). by apply includes_longer.
Qed.

(** ** JSON.parse *)

Section JSONFacts.
Import JSON.

Example parse_ex1 :
  JSON.parse (lit "[{" ++ q "a" ++ lit ": -1.5e2, " ++ q "b" ++ lit " :[true,null , {}]}, 0, " ++ q "A\n" ++ lit "]")
  = Some (Arr [Obj [(lit "a", Num (binary64 true 15 1));
                    (lit "b", Arr [Bool true; Null; Obj []])];
               Num (S754_zero false);
               Str [65; 10]%N]).
Proof. vm_compute. reflexivity. Qed.

Example parse_ex2 :
  map JSON.parse [lit "not json"; lit "[1,]"; lit "01"; lit "tru"; lit "{" ++ q "a" ++ lit "}"; lit ""; lit "nulll"; lit "1 2"; lit "-"; lit "1."]
  = [None; None; None; None; None; None; None; None; None; None].
Proof. vm_compute. reflexivity. Qed.

(** Deciding the comparisons of a code unit with constants. *)
Ltac N_cases :=
  repeat match goal with
         | |- context [(?a =? ?b)%N] => destruct (N.eqb_spec a b); try lia
         | |- context [(?a <=? ?b)%N] => destruct (N.leb_spec a b); try lia
         | |- context [(?a <? ?b)%N] => destruct (N.ltb_spec a b); try lia
         | H : context [(?a =? ?b)%N] |- _ => destruct (N.eqb_spec a b); try lia
         | H : context [(?a <=? ?b)%N] |- _ => destruct (N.leb_spec a b); try lia
         | H : context [(?a <? ?b)%N] |- _ => destruct (N.ltb_spec a b); try lia
         end.

Lemma white_space_cases (c : N) :
  is_white_space c = true ->
  (9 <= c <= 13 \/ c = 32 \/ c = 160 \/ c = 5760 \/ 8192 <= c <= 8202 \/ c = 8232
   \/ c = 8233 \/ c = 8239 \/ c = 8287 \/ c = 12288 \/ c = 65279)%N.
Proof. unfold is_white_space. intros Hc. N_cases; simpl in Hc; try done. Qed.

Lemma word_letters (w : word) (k : nat) (e : N) :
  word_text w !! k = Some e -> (97 <= e <= 122)%N.
Proof.
  destruct w; do 6 (destruct k as [|k]; [intros [= <-]; lia |]); done.
Qed.


Ltac N_hyp H :=
  repeat match type of H with
         | context [(?a =? ?b)%N] => destruct (N.eqb_spec a b); try lia; cbn iota beta in H
         | context [(?a <=? ?b)%N] => destruct (N.leb_spec a b); try lia; cbn iota beta in H
         | context [(?a <? ?b)%N] => destruct (N.ltb_spec a b); try lia; cbn iota beta in H
         | context [andb true ?b] => change (andb true b) with b in H
         | context [andb false ?b] => change (andb false b) with false in H
         | context [orb true ?b] => change (orb true b) with true in H
         | context [orb false ?b] => change (orb false b) with b in H
         end.

(** Outside a token, white space is skipped if it is JSON's and refused
    otherwise. *)
Lemma default_step_ws (out : list token) (c : N) :
  is_white_space c = true ->
  default_step out c = if is_ws c then Some (LDefault, out) else None.
Proof.
  intros Hc%white_space_cases.
  unfold default_step, is_digit. destruct (is_ws c) eqn:Hw; [done |].
  unfold is_ws in Hw. N_cases; done.
Qed.

(** A white-space code unit that the lexer accepts does not change what the
    text read so far amounts to. *)
Lemma ws_step (q q' : lstate) (out out' r : list token) (c : N) :
  is_white_space c = true ->
  lex_step q out c = Some (q', out') ->
  lex_finish q' out' = Some r ->
  lex_finish q out = Some r.
Proof.
  intros Hw Hs Hf. pose proof (white_space_cases c Hw) as Hc.
  destruct q as [|acc|acc|acc todo v|w k|st a]; simpl in Hs.
  - rewrite default_step_ws in Hs by done.
    destruct (is_ws c); by simplify_eq.
  - N_hyp Hs; by simplify_eq.
  - unfold escape in Hs. N_hyp Hs; by simplify_eq.
  - unfold hex_value, is_digit in Hs. N_hyp Hs; by simplify_eq.
  - destruct (word_text w !! k) as [e|] eqn:He; [| done].
    apply word_letters in He. N_hyp Hs; by simplify_eq.
  - unfold num_step in Hs. rewrite default_step_ws in Hs by done.
    unfold is_digit, is_exp_mark in Hs.
    destruct st; N_hyp Hs; try done; destruct (is_ws c); by simplify_eq.
Qed.

(** Trimming a text that lexes leaves a text that lexes to the same tokens. *)
Lemma lex_trim_end (s : jsstring) : forall q out r,
  lex_from q out s = Some r -> lex_from q out (trim_end s) = Some r.
Proof.
  induction s as [|c s IH]; intros q out r Hl; [done |].
  simpl in Hl. destruct (lex_step q out c) as [[q' out']|] eqn:Hs; [| done].
  apply IH in Hl. simpl.
  destruct (trim_end s) as [|d t] eqn:Ht.
  - simpl in Hl. destruct (is_white_space c) eqn:Hc.
    + simpl. by apply (ws_step q q' out out' r c).
    + simpl. by rewrite Hs.
  - simpl. by rewrite Hs.
Qed.

Lemma lex_trim_start (s : jsstring) (r : list token) :
  lex s = Some r -> lex (trim_start s) = Some r.
Proof.
  unfold lex. induction s as [|c s IH]; [done |]. simpl.
  destruct (is_white_space c) eqn:Hc; [| done].
  rewrite default_step_ws by done. by destruct (is_ws c).
Qed.

Lemma parse_trim (s : jsstring) (v : value) :
  JSON.parse s = Some v -> JSON.parse (trim s) = Some v.
Proof.
  unfold JSON.parse. destruct (lex s) as [ts|] eqn:Hl; [| done].
  intros Hp. apply lex_trim_start in Hl. apply lex_trim_end in Hl.
  unfold trim, lex. unfold lex in Hl. by rewrite Hl.
Qed.

(** No text ends in a backtick. *)
Lemma lex_backtick (s : jsstring) : forall q out,
  lex_from q out (s ++ [96%N]) = None.
Proof.
  induction s as [|c s IH]; intros q out.
  - destruct q as [|acc|acc|acc todo v|w k|st a]; try done.
    + change (lex_from (LWord w k) out ([] ++ [96%N]))
        with (match lex_step (LWord w k) out 96%N with
              | Some (q', out') => lex_finish q' out'
              | None => None
              end).
      unfold lex_step.
      destruct (word_text w !! k) as [e|] eqn:He; [| done].
      apply word_letters in He. destruct (N.eqb_spec 96 e); [lia | done].
    + by destruct st.
  - simpl. destruct (lex_step q out c) as [[q' out']|]; [apply IH | done].
Qed.

Lemma parse_last (s : jsstring) (v : value) :
  JSON.parse s = Some v -> last s <> Some 96%N.
Proof.
  intros Hp Hl. apply last_Some in Hl as [s' ->].
  unfold JSON.parse, lex in Hp. by rewrite lex_backtick in Hp.
Qed.

Lemma parse_head (c : N) (s : jsstring) (v : value) :
  JSON.parse (c :: s) = Some v -> c <> 96%N /\ c <> 106%N.
Proof.
  intros Hp. split; intros ->; done.
Qed.

Lemma parse_step_done (p : pstate) (t : token) (v : value) :
  parse_step p t = Some (PDone v) -> v <> Undefined.
Proof.
  destruct p, t; simpl; unfold deliver;
    repeat case_match; intros; simplify_eq; done.
Qed.

Lemma parse_from_defined (ts : list token) : forall p v,
  (forall v', p = PDone v' -> v' <> Undefined) ->
  parse_from p ts = Some v -> v <> Undefined.
Proof.
  induction ts as [|t ts IH]; intros p v Hp; simpl.
  - destruct p; try done. intros [= <-]. by apply Hp.
  - destruct (parse_step p t) as [p'|] eqn:Hs; [| done].
    apply IH. intros v' ->. by apply parse_step_done in Hs.
Qed.

(** [JSON.parse] never returns [undefined]. *)
Lemma parse_defined (s : jsstring) (v : value) :
  JSON.parse s = Some v -> v <> Undefined.
Proof.
  unfold JSON.parse. destruct (lex s); [| done].
  by apply parse_from_defined.
Qed.

End JSONFacts.

(** ** The handlers *)

Ltac js_eval :=
  cbn [mbind mret prog_bind prog_ret bind try_catch try_let throw_Error
       negb message kind].

Section Evaluation.
Context `{Engine}.

Lemma destructure_field (v : value) (k : jsstring) :
  nullish v = false -> destructure v k = Ret (field v k).
Proof. intros Hv. unfold destructure. by rewrite Hv. Qed.

(** The variant that validates its input answers 400, without calling the
    upstream, when [imageData] is falsy. *)
Lemma falsy_image_rejected (env : gmap string jsstring) (req : Request) :
  nullish (req_body req) = false ->
  truthy (field (req_body req) (lit "imageData")) = false ->
  process_image Part001 env req = Ret no_image_data.
Proof.
  intros Hb Hi. unfold process_image, process_image_001.
  rewrite !destructure_field by done. js_eval. rewrite Hi. js_eval. done.
Qed.

Lemma calls_of_ret {A} (up : upstream) (a : A) : calls_of up (Ret a) = [].
Proof. done. Qed.

Lemma calls_of_fetch {A} (up : upstream) u b (k : outcome -> prog A) :
  calls_of up (Fetch u b k) = (u, b) :: calls_of up (k (up u b)).
Proof. unfold calls_of. simpl. by destruct (run up (k (up u b))). Qed.

Lemma response_of_fetch {A} (up : upstream) u b (k : outcome -> prog A) :
  response_of up (Fetch u b k) = response_of up (k (up u b)).
Proof. unfold response_of. simpl. by destruct (run up (k (up u b))). Qed.

Lemma missing_credential (var : variant) (env : gmap string jsstring) (req : Request) :
  nullish (req_body req) = false ->
  truthy (credential var env) = false ->
  (validates_input var = true ->
   truthy (field (req_body req) (lit "imageData")) = true) ->
  process_image var env req = Ret (configuration_error var).
Proof.
  intros Hb Hc Hi.
  destruct var; unfold process_image, process_image_vercel, process_image_001,
    process_image_002, credential in *;
    rewrite !destructure_field by done; js_eval;
    rewrite ?Hi by done; js_eval; rewrite Hc; js_eval; done.
Qed.

Lemma get_field (v : value) (k : jsstring) :
  nullish v = false -> get v k = Ret (field v k).
Proof. intros Hv. unfold get. by rewrite Hv. Qed.

Lemma at_path_cons (v : value) (k : jsstring) (ks : list jsstring) :
  at_path v (k :: ks) = at_path (field v k) ks.
Proof. done. Qed.

Lemma at_path_nullish (v : value) (ks : list jsstring) :
  nullish v = true -> ks <> [] -> at_path v ks = Undefined.
Proof.
  intros Hv Hks. destruct ks as [|k ks]; [done |]. rewrite at_path_cons.
  assert (field v k = Undefined) as -> by (by destruct v).
  clear. induction ks as [|k' ks IH]; [done |]. by rewrite at_path_cons.
Qed.

Lemma at_path_app (v : value) (ks ks' : list jsstring) :
  at_path v (ks ++ ks') = at_path (at_path v ks) ks'.
Proof. apply fold_left_app. Qed.

(** A path that ends in a value passes through values only. *)
Lemma at_path_prefix (v : value) (ks ks' : list jsstring) :
  nullish (at_path v (ks ++ ks')) = false -> ks' <> [] ->
  nullish (at_path v ks) = false.
Proof.
  intros Hv Hks. rewrite at_path_app in Hv.
  destruct (nullish (at_path v ks)) eqn:Hn; [| done].
  by rewrite (at_path_nullish _ ks' Hn Hks) in Hv.
Qed.

Lemma get_path_defined (v : value) (ks : list jsstring) :
  nullish (at_path v ks) = false -> get_path v ks = Ret (at_path v ks).
Proof.
  revert v. induction ks as [|k ks IH]; intros v Hv; [done |].
  assert (nullish v = false) as Hn.
  { destruct ks as [|k' ks].
    - destruct v; try done.
    - apply (at_path_prefix v [] (k :: k' :: ks)); done. }
  cbn [get_path]. rewrite (get_field v k Hn). js_eval. apply IH. done.
Qed.

Lemma truthy_of_field (v : value) (k : jsstring) :
  eqb k (lit "length") = false -> nullish (field v k) = false -> truthy v = true.
Proof.
  intros Hk Hf. destruct v as [| | | |s| |]; try done.
  destruct s; [| done]. simpl in Hf. rewrite Hk in Hf.
  by destruct (array_index k).
Qed.

(** What a reply that carries a first text has on the way to it. *)
Lemma text_path (json : value) :
  nullish (at_path json candidate_text) = false ->
  nullish json = false
  /\ truthy (field json (lit "candidates")) = true
  /\ nullish (at_path json [lit "candidates"; lit "0"]) = false
  /\ truthy (at_path json [lit "candidates"; lit "0"]) = true.
Proof.
  intros Ht.
  pose proof (at_path_prefix json [] candidate_text Ht ltac:(done)) as H0.
  pose proof (at_path_prefix json [lit "candidates"; lit "0"]
                [lit "content"; lit "parts"; lit "0"; lit "text"] Ht ltac:(done)) as H2.
  pose proof (at_path_prefix json [lit "candidates"; lit "0"; lit "content"]
                [lit "parts"; lit "0"; lit "text"] Ht ltac:(done)) as H3.
  repeat split; try done.
  - by apply (truthy_of_field _ (lit "0")).
  - by apply (truthy_of_field _ (lit "content")).
Qed.

Lemma has_candidate (json : value) :
  nullish (at_path json candidate_text) = false ->
  or_ (not_ (get json (lit "candidates")))
      (not_ (get_path json [lit "candidates"; lit "0"])) = Ret (Bool false).
Proof.
  intros Ht. destruct (text_path json Ht) as (H0 & H1 & H2 & H3).
  unfold or_, not_. rewrite (get_field json _ H0). js_eval. rewrite H1.
  cbn [negb truthy]. rewrite (get_path_defined json _ H2). js_eval.
  by rewrite H3.
Qed.

Lemma not_blocked (json : value) :
  nullish json = false ->
  truthy (at_path json [lit "promptFeedback"; lit "blockReason"]) = false ->
  exists b,
    and_ (get json (lit "promptFeedback"))
         (get_path json [lit "promptFeedback"; lit "blockReason"]) = Ret b
    /\ truthy b = false.
Proof.
  intros H0 Hb. unfold and_. rewrite (get_field json _ H0). js_eval.
  destruct (truthy (field json (lit "promptFeedback"))) eqn:Hp; [| eauto].
  cbn [get_path]. rewrite (get_field json _ H0). js_eval.
  rewrite get_field by (by destruct (field json (lit "promptFeedback"))).
  js_eval. eauto.
Qed.

Lemma not_filtered (candidate : value) :
  nullish candidate = false ->
  is_string (field candidate (lit "finishReason")) (lit "SAFETY") = false ->
  is_string (field candidate (lit "finishReason")) (lit "RECITATION") = false ->
  or_ (is_ (get candidate (lit "finishReason")) "SAFETY")
      (is_ (get candidate (lit "finishReason")) "RECITATION") = Ret (Bool false).
Proof.
  intros H0 Hs Hr. unfold or_, is_. rewrite (get_field _ _ H0). js_eval.
  rewrite Hs. cbn [truthy]. js_eval. by rewrite Hr.
Qed.

Lemma response_json_parsed (url : jsstring) (r : reply) (json : value) :
  JSON.parse (reply_text r) = Some json -> response_json url r = Ret json.
Proof. intros Hp. unfold response_json. by rewrite Hp. Qed.

Lemma to_string_str (s : jsstring) : to_string (Str s) = Ret s.
Proof. done. Qed.

(** A credential that is resolved is a string. *)
Lemma resolved_key (env : gmap string jsstring) :
  truthy (or_else (env_var env "GEMINI_API_KEY") (env_var env "GOOGLE_API_KEY")) = true ->
  exists key,
    or_else (env_var env "GEMINI_API_KEY") (env_var env "GOOGLE_API_KEY") = Str key.
Proof.
  unfold or_else, env_var.
  destruct (env !! "GEMINI_API_KEY") as [[|c1 k1]|],
    (env !! "GOOGLE_API_KEY") as [[|c2 k2]|]; simpl; try done; eauto.
Qed.

(** The two variants of Vercel, once the reply carries a text. *)
Lemma vercel_on_text (model : string) (prompt : jsstring)
    (env : gmap string jsstring) (req : Request) (up : upstream)
    (r : reply) (t : jsstring) :
  nullish (req_body req) = false ->
  truthy (or_else (env_var env "GEMINI_API_KEY") (env_var env "GOOGLE_API_KEY")) = true ->
  answers up r ->
  generated r t ->
  response_of up (process_image_vercel model prompt env req) =
    inr (match JSON.parse (strip_fences (trim t)) with
         | Some v =>
             if nullish v then
               res_json 500
                 (Obj [(lit "error", Str (type_error_message (ReadOfNullish v (lit "length"))));
                       (lit "note", Str (lit "Verifica que la API key esté configurada en Vercel Environment Variables"))])
             else res_json 200 v
         | None =>
             res_json 400
               (Obj [(lit "error", Str (lit "Error al parsear respuesta del modelo"));
                     (lit "raw", Str (strip_fences (trim t)))])
         end).
Proof.
  intros Hb Hk Hup (Hok & json & Hj & He & Ht & Hbl & Hs & Hr).
  assert (nullish (at_path json candidate_text) = false) as Hn by (by rewrite Ht).
  destruct (text_path json Hn) as (H0 & H1 & H2 & H3).
  destruct (not_blocked json H0 Hbl) as (b & Hb1 & Hb2).
  unfold process_image_vercel.
  rewrite !destructure_field by done. js_eval. rewrite Hk. js_eval.
  destruct (resolved_key env Hk) as [key ->].
  rewrite to_string_str. js_eval. unfold fetch. js_eval.
  rewrite response_of_fetch, Hup. js_eval.
  rewrite (response_json_parsed _ r json Hj). js_eval.
  rewrite (get_field json (lit "error") H0). js_eval. rewrite He. js_eval.
  rewrite (has_candidate json Hn). js_eval. cbn [truthy].
  rewrite Hb1. js_eval. rewrite Hb2.
  rewrite (get_path_defined json _ H2). js_eval.
  rewrite (not_filtered _ H2 Hs Hr). js_eval. cbn [truthy].
  rewrite (get_path_defined json _ Hn), Ht. js_eval. cbn [call_trim]. js_eval.
  unfold JSON_parse. destruct (JSON.parse (strip_fences (trim t))) as [v|]; js_eval.
  - unfold get. destruct (nullish v); js_eval; done.
  - done.
Qed.

Lemma get_chain_at_path (v : value) (ks : list jsstring) :
  get_chain v ks = Ret (at_path v ks).
Proof.
  revert v. induction ks as [|k ks IH]; intros v; [done |].
  destruct (nullish v) eqn:Hv.
  - rewrite (at_path_nullish v (k :: ks) Hv) by done. by destruct v.
  - cbn [get_chain]. rewrite (get_field v k Hv). js_eval. rewrite IH.
    by destruct v.
Qed.

Lemma p002_on_text (env : gmap string jsstring) (req : Request) (up : upstream)
    (r : reply) (t : jsstring) :
  nullish (req_body req) = false ->
  truthy (env_var env "GEMINI_API_KEY") = true ->
  answers up r ->
  generated r t ->
  response_of up (process_image_002 env req) =
    inr (match JSON.parse (strip_fences (trim t)) with
         | Some v => res_json 200 v
         | None =>
             res_json 400
               (Obj [(lit "error", Str (lit "Error al parsear respuesta del modelo"));
                     (lit "raw", Str (strip_fences (trim t)))])
         end).
Proof.
  intros Hb Hk Hup (Hok & json & Hj & He & Ht & Hbl & Hs & Hr).
  assert (nullish (at_path json candidate_text) = false) as Hn by (by rewrite Ht).
  destruct (text_path json Hn) as (H0 & H1 & H2 & H3).
  destruct (not_blocked json H0 Hbl) as (b & Hb1 & Hb2).
  unfold process_image_002.
  rewrite !destructure_field by done. js_eval. rewrite Hk. js_eval.
  unfold env_var in *. destruct (env !! "GEMINI_API_KEY") as [key|]; [| done].
  cbn [from_option]. rewrite to_string_str. js_eval. unfold fetch. js_eval.
  rewrite response_of_fetch, Hup. js_eval.
  rewrite (response_json_parsed _ r json Hj). js_eval.
  rewrite Hb1. js_eval. rewrite Hb2.
  rewrite (has_candidate json Hn). js_eval. cbn [truthy].
  rewrite (get_path_defined json _ H2). js_eval.
  rewrite (not_filtered _ H2 Hs Hr). js_eval. cbn [truthy].
  rewrite (get_path_defined json _ Hn), Ht. js_eval. cbn [call_trim]. js_eval.
  unfold JSON_parse. by destruct (JSON.parse (strip_fences (trim t))).
Qed.

Lemma p001_on_text (env : gmap string jsstring) (req : Request) (up : upstream)
    (r : reply) (t : jsstring) :
  submits_image req ->
  truthy (env_var env "GEMINI_API_KEY") = true ->
  answers up r ->
  generated r t ->
  t <> [] ->
  response_of up (process_image_001 env req) =
    inr (match JSON.parse (strip_fences t) with
         | Some v => res_json 200 v
         | None =>
             res_json 500
               (Obj [(lit "error", Str (json_syntax_message (strip_fences t)))])
         end).
Proof.
  intros [Hb Hi] Hk Hup (Hok & json & Hj & He & Ht & Hbl & Hs & Hr) Hne.
  assert (nullish (at_path json candidate_text) = false) as Hn by (by rewrite Ht).
  destruct (text_path json Hn) as (H0 & H1 & H2 & H3).
  unfold process_image_001.
  rewrite !destructure_field by done. js_eval. rewrite Hi. js_eval. rewrite Hk. js_eval.
  unfold env_var in *. destruct (env !! "GEMINI_API_KEY") as [key|]; [| done].
  cbn [from_option]. rewrite to_string_str. js_eval. unfold fetch. js_eval.
  rewrite response_of_fetch, Hup. js_eval. rewrite Hok. js_eval.
  rewrite (response_json_parsed _ r json Hj). js_eval.
  rewrite (get_field json (lit "candidates") H0). js_eval.
  rewrite get_chain_at_path. js_eval.
  change (at_path (field json (lit "candidates"))
            [lit "0"; lit "content"; lit "parts"; lit "0"; lit "text"])
    with (at_path json candidate_text).
  rewrite Ht. destruct t as [|c t]; [done |]. cbn [truthy negb call_replace]. js_eval.
  unfold JSON_parse. fold (strip_fences (c :: t)).
  by destruct (JSON.parse (strip_fences (c :: t))).
Qed.

(** Every variant, once the reply carries a text that parses after cleanup. *)
Lemma parsed_text_returned (var : variant) (env : gmap string jsstring)
    (req : Request) (up : upstream) (r : reply) (t : jsstring) (v : value) :
  submits_image req ->
  truthy (credential var env) = true ->
  answers up r ->
  generated r t ->
  JSON.parse (strip_fences t) = Some v ->
  (logs_length var = true -> v <> Null) ->
  response_of up (process_image var env req) = inr (res_json 200 v).
Proof.
  intros Hs Hk Hup Hg Hp Hv.
  assert (t <> []) as Hne by (by intros ->).
  pose proof (parse_defined _ _ Hp) as Hd.
  destruct var; unfold process_image, credential in *.
  - rewrite (vercel_on_text _ _ env req up r t) by (done || apply Hs).
    rewrite strip_fences_trim, Hp.
    destruct v; try done. by specialize (Hv eq_refl).
  - rewrite (vercel_on_text _ _ env req up r t) by (done || apply Hs).
    rewrite strip_fences_trim, Hp.
    destruct v; try done. by specialize (Hv eq_refl).
  - rewrite (p001_on_text env req up r t) by done. by rewrite Hp.
  - rewrite (p002_on_text env req up r t) by (done || apply Hs).
    by rewrite strip_fences_trim, Hp.
Qed.

(** The cleanup of a fenced JSON text parses to the value of the text. *)
Lemma fenced_parse (j t : jsstring) (v : value) :
  fenced j t -> JSON.parse j = Some v -> includes fence j = false ->
  JSON.parse (strip_fences t) = Some v.
Proof.
  intros (w1 & o & c & w2 & -> & Hw1 & Hw2 & Ho & Hc) Hp Hi.
  destruct j as [|h j'] eqn:Hj; [done |]. rewrite <- Hj in *.
  assert (JSON.parse (h :: j') = Some v) as Hp' by (by rewrite <- Hj).
  destruct (parse_head h j' v Hp') as [H96 H106].
  pose proof (parse_last j v Hp) as Hl.
  unfold strip_fences.
  replace (w1 ++ o ++ j ++ c ++ w2) with (w1 ++ (o ++ j ++ c) ++ w2)
    by (by rewrite <- !app_assoc).
  rewrite (replace_all_ws fence_json) by done.
  rewrite (replace_all_ws fence) by done.
  rewrite (unwrap o j c h j') by done.
  rewrite trim_ws by done. by apply parse_trim.
Qed.

(** The three variants with the inner [catch] answer a text that does not
    parse with 400 and the cleaned text. *)
Lemma unparsable_text_reported (var : variant) (env : gmap string jsstring)
    (req : Request) (up : upstream) (r : reply) (t : jsstring) :
  var <> Part001 ->
  nullish (req_body req) = false ->
  truthy (credential var env) = true ->
  answers up r ->
  generated r t ->
  JSON.parse (strip_fences t) = None ->
  response_of up (process_image var env req) =
    inr (res_json 400
           (Obj [(lit "error", Str (lit "Error al parsear respuesta del modelo"));
                 (lit "raw", Str (strip_fences t))])).
Proof.
  intros Hv Hb Hk Hup Hg Hp.
  destruct var; unfold process_image, credential in *; try done.
  - rewrite (vercel_on_text _ _ env req up r t) by done.
    by rewrite strip_fences_trim, Hp.
  - rewrite (vercel_on_text _ _ env req up r t) by done.
    by rewrite strip_fences_trim, Hp.
  - rewrite (p002_on_text env req up r t) by done.
    by rewrite strip_fences_trim, Hp.
Qed.

(** [part_002] checks the block reason first and reports it. *)
Lemma blocked_reported_part_002 (env : gmap string jsstring) (req : Request)
    (up : upstream) (r : reply) (json : value) :
  nullish (req_body req) = false ->
  truthy (credential Part002 env) = true ->
  answers up r ->
  JSON.parse (reply_text r) = Some json ->
  at_path json [lit "promptFeedback"; lit "blockReason"] = Str (lit "SAFETY") ->
  response_of up (process_image Part002 env req) =
    inr (res_json 500
           (Obj [(lit "error", Str (lit "Contenido bloqueado por seguridad: SAFETY"))])).
Proof.
  intros Hb Hk Hup Hj Hs.
  assert (nullish (at_path json [lit "promptFeedback"; lit "blockReason"]) = false)
    as Hn by (by rewrite Hs).
  pose proof (at_path_prefix json [] _ Hn ltac:(done)) as H0.
  pose proof (at_path_prefix json [lit "promptFeedback"] [lit "blockReason"] Hn ltac:(done)) as H1.
  assert (truthy (field json (lit "promptFeedback")) = true) as Ht
    by (by apply (truthy_of_field _ (lit "blockReason"))).
  unfold process_image, process_image_002, credential in *.
  rewrite !destructure_field by done. js_eval. rewrite Hk. js_eval.
  unfold env_var in *. destruct (env !! "GEMINI_API_KEY") as [key|]; [| done].
  cbn [from_option]. rewrite to_string_str. js_eval. unfold fetch. js_eval.
  rewrite response_of_fetch, Hup. js_eval.
  rewrite (response_json_parsed _ r json Hj). js_eval.
  unfold and_. rewrite (get_field json (lit "promptFeedback") H0). js_eval.
  rewrite Ht. rewrite (get_path_defined json _ Hn), Hs. js_eval.
  cbn [truthy]. change (lit "SAFETY") with (83%N :: lit "AFETY"). cbn iota.
  js_eval. rewrite to_string_str. js_eval. done.
Qed.

(** [part_001] checks the status and reports it with the body of the reply. *)
Lemma upstream_status_part_001 (env : gmap string jsstring) (req : Request)
    (up : upstream) (r : reply) :
  submits_image req ->
  truthy (credential Part001 env) = true ->
  answers up r ->
  ok r = false ->
  response_of up (process_image Part001 env req) =
    inr (res_json 500
           (Obj [(lit "error",
                  Str (lit "Gemini API Error: " ++ decimal (reply_status r)
                       ++ lit " - " ++ reply_text r))])).
Proof.
  intros [Hb Hi] Hk Hup Hok.
  unfold process_image, process_image_001, credential in *.
  rewrite !destructure_field by done. js_eval. rewrite Hi. js_eval. rewrite Hk. js_eval.
  unfold env_var in *. destruct (env !! "GEMINI_API_KEY") as [key|]; [| done].
  cbn [from_option]. rewrite to_string_str. js_eval. unfold fetch. js_eval.
  rewrite response_of_fetch, Hup. js_eval. rewrite Hok. js_eval. done.
Qed.

(** Every variant answers a transport failure with 500 and the message of
    the rejection. *)
Lemma transport_failure_reported (var : variant) (env : gmap string jsstring)
    (req : Request) (up : upstream) (e : error) :
  submits_image req ->
  truthy (credential var env) = true ->
  (forall u b, up u b = Rejected e) ->
  response_of up (process_image var env req) = inr (caught var (message e)).
Proof.
  intros [Hb Hi] Hk Hup.
  destruct var; unfold process_image, process_image_vercel, process_image_001,
    process_image_002, credential in *;
    rewrite !destructure_field by done; js_eval; rewrite ?Hi; js_eval;
    rewrite Hk; js_eval.
  1,2: destruct (resolved_key env Hk) as [key ->].
  3,4: unfold env_var in *; destruct (env !! "GEMINI_API_KEY") as [key|]; [| done];
       cbn [from_option].
  all: rewrite to_string_str; js_eval; unfold fetch; js_eval;
       rewrite response_of_fetch, Hup; js_eval; done.
Qed.

End Evaluation.

(** ** The variants on the sample inputs *)

(** The end-to-end scenario of the specification, in every variant. *)
Example scenario_answered (var : variant) :
  response_of (always (text_reply scenario_text))
    (@process_image sample_engine var with_key (post image_png))
  = inr (res_json 200 scenario_value).
Proof. destruct var; vm_compute; reflexivity. Qed.

Example unparsable_text_reported_part_002 :
  response_of (always (text_reply (lit "not json")))
    (@process_image sample_engine Part002 with_key (post image_png))
  = inr (res_json 400
           (Obj [(lit "error", Str (lit "Error al parsear respuesta del modelo"));
                 (lit "raw", Str (lit "not json"))])).
Proof.
  apply (@unparsable_text_reported sample_engine Part002 with_key (post image_png)
           (always (text_reply (lit "not json"))) (text_reply (lit "not json"))
           (lit "not json")); try done.
  split; [done |]. eexists. split; [vm_compute; reflexivity |].
  repeat split; vm_compute; reflexivity.
Qed.

Example blocked_reported_sample :
  response_of (always blocked_reply)
    (@process_image sample_engine Part002 with_key (post image_png))
  = inr (res_json 500
           (Obj [(lit "error", Str (lit "Contenido bloqueado por seguridad: SAFETY"))])).
Proof.
  eapply (@blocked_reported_part_002 sample_engine with_key (post image_png)
            (always blocked_reply) blocked_reply); try done.
  all: vm_compute; reflexivity.
Qed.

Example upstream_status_sample :
  response_of (always quota_reply)
    (@process_image sample_engine Part001 with_key (post image_png))
  = inr (res_json 500
           (Obj [(lit "error",
                  Str (lit "Gemini API Error: 429 - " ++ reply_text quota_reply))])).
Proof.
  apply (@upstream_status_part_001 sample_engine with_key (post image_png)
           (always quota_reply) quota_reply); done.
Qed.

Example transport_failure_sample (var : variant) :
  response_of (fun _ _ => Rejected {| kind := FetchError; message := lit "socket hang up" |})
    (@process_image sample_engine var with_key (post image_png))
  = inr (caught var (lit "socket hang up")).
Proof.
  apply (@transport_failure_reported sample_engine var with_key (post image_png)
           _ {| kind := FetchError; message := lit "socket hang up" |}); try done.
  by destruct var.
Qed.

(** [part_001] never reads the block reason. *)
Example blocked_part_001 :
  response_of (always blocked_reply)
    (@process_image sample_engine Part001 with_key (post image_png))
  = inr (res_json 500 (Obj [(lit "error", Str (lit "No data returned from AI"))])).
Proof. vm_compute. reflexivity. Qed.

(** [src/server.js] reports the message of the upstream error, without the
    status; and it does not look at the status of a reply without [error]. *)
Example upstream_status_server :
  response_of (always quota_reply)
    (@process_image sample_engine Server with_key (post image_png))
  = inr (caught Server (lit "API Error: Quota exceeded"))
  /\ response_of
       (always {| reply_status := 503; reply_text := reply_text (text_reply (lit "[]")) |})
       (@process_image sample_engine Server with_key (post image_png))
     = inr (res_json 200 (Arr [])).
Proof. split; vm_compute; reflexivity. Qed.

(** The null value, in the variants that do not log its length. *)
Example null_value_returned :
  response_of (always (text_reply (lit "null")))
    (@process_image sample_engine Part002 with_key (post image_png))
  = inr (res_json 200 Null)
  /\ response_of (always (text_reply (lit "null")))
       (@process_image sample_engine Part001 with_key (post image_png))
     = inr (res_json 200 Null).
Proof. split; vm_compute; reflexivity. Qed.

(** ** What res.json sends *)

Section Serialization.

(** Induction on values, through the arrays and the objects. *)
Lemma value_nested_ind (P : value -> Prop) :
  P Undefined -> P Null -> (forall b, P (Bool b)) -> (forall n, P (Num n)) ->
  (forall s, P (Str s)) ->
  (forall elems, Forall P elems -> P (Arr elems)) ->
  (forall props, Forall (fun kv => P kv.2) props -> P (Obj props)) ->
  forall v, P v.
Proof.
  intros HU HN HB HNum HS HA HO. fix IH 1.
  intros [| | b | n | s | elems | props];
    [exact HU | exact HN | apply HB | apply HNum | apply HS | |].
  - apply HA. induction elems as [|x elems IHl]; constructor; [apply IH | exact IHl].
  - apply HO. induction props as [|[k x] props IHl]; constructor; [apply IH | exact IHl].
Qed.

(** A value without [undefined], numbers that are not finite and negative
    zeros is sent as it is. *)
Lemma serialized_verbatim (v : value) : verbatim v = true -> serialized v = v.
Proof.
  induction v as [| | b | n | s | elems IH | props IH] using value_nested_ind;
    cbn [verbatim serialized]; try done.
  - by destruct n as [[]| | |].
  - intros Hall. f_equal. induction IH as [|x elems Hx _ IHl]; [done |].
    cbn [forallb map] in *. apply andb_prop in Hall as [Hvx Hl].
    rewrite (IHl Hl). f_equal. rewrite (Hx Hvx). by destruct x.
  - intros Hall. f_equal. induction IH as [|[k x] props Hx _ IHl]; [done |].
    cbn [forallb flat_map] in *. apply andb_prop in Hall as [Hvx Hl].
    rewrite (IHl Hl). cbn [snd] in *. rewrite (Hx Hvx). by destruct x.
Qed.

End Serialization.

(** ** The claims *)

(** C10. In the variant that validates the presence of its input, an
    [imageData] that is the empty string is treated as an absent one: the
    request is answered 400, as the request without [imageData] is, and the
    upstream is not called. *)
Theorem empty_image_data_rejected `{Engine}
    (env : gmap string jsstring) (req absent : Request) (up : upstream)
    (props props' : list (jsstring * value)) :
  req_body req = Obj props ->
  own (lit "imageData") props = Some (Str []) ->
  req_body absent = Obj props' ->
  own (lit "imageData") props' = None ->
  process_image Part001 env req = Ret no_image_data
  /\ process_image Part001 env absent = Ret no_image_data
  /\ calls_of up (process_image Part001 env req) = [].
Proof.
  intros Hb Hi Hb' Hi'.
  assert (process_image Part001 env req = Ret no_image_data) as Hr.
  { apply falsy_image_rejected; rewrite Hb; [done |]. simpl. by rewrite Hi. }
  split; [done |]. split.
  - apply falsy_image_rejected; rewrite Hb'; [done |]. simpl. by rewrite Hi'.
  - by rewrite Hr.
Qed.

Lemma empty_image_data_rejected_witness :
  @process_image sample_engine Part001 with_key
     (post (Obj [(lit "imageData", Str [])])) = Ret no_image_data
  /\ @process_image sample_engine Part001 with_key (post (Obj [])) = Ret no_image_data
  /\ calls_of (fun _ _ => Rejected {| kind := FetchError; message := [] |})
       (@process_image sample_engine Part001 with_key
          (post (Obj [(lit "imageData", Str [])]))) = [].
Proof.
  apply (@empty_image_data_rejected sample_engine with_key
           (post (Obj [(lit "imageData", Str [])])) (post (Obj []))
           (fun _ _ => Rejected {| kind := FetchError; message := [] |})
           [(lit "imageData", Str [])] []); reflexivity.
Defined.

(** C4, as amended. A request made while the credential is absent (and, in
    the variant that validates its input, carrying image data) is answered
    with the variant's configuration error, status 500; the upstream is not
    called; the answer is a constant of the source, the same for every
    environment, so that nothing of the environment can appear in it. *)
Theorem missing_credential_reported `{Engine}
    (var : variant) (env : gmap string jsstring) (req : Request) (up : upstream) :
  nullish (req_body req) = false ->
  truthy (credential var env) = false ->
  (validates_input var = true ->
   truthy (field (req_body req) (lit "imageData")) = true) ->
  process_image var env req = Ret (configuration_error var)
  /\ res_status (configuration_error var) = 500%N
  /\ calls_of up (process_image var env req) = [].
Proof.
  intros Hb Hc Hi. rewrite (missing_credential var env req Hb Hc Hi).
  split; [done |]. split; [by destruct var | done].
Qed.

Lemma missing_credential_reported_witness :
  @process_image sample_engine Part001 ∅ (post image_png)
  = Ret (configuration_error Part001)
  /\ res_status (configuration_error Part001) = 500%N
  /\ calls_of (fun _ _ => Rejected {| kind := FetchError; message := [] |})
       (@process_image sample_engine Part001 ∅ (post image_png)) = [].
Proof.
  apply (@missing_credential_reported sample_engine Part001 ∅ (post image_png));
    [reflexivity | reflexivity | intros _; reflexivity].
Defined.

(** C4, as stated, fails: with the credential absent, the variant that
    validates its input answers a request without image data with 400. *)
Lemma missing_credential_not_always_500 :
  credential Part001 ∅ = Undefined
  /\ @process_image sample_engine Part001 ∅ (post (Obj []))
     = Ret (res_json 400 (Obj [(lit "error", Str (lit "No image data provided"))])).
Proof. split; reflexivity. Qed.

(** C3, on the code. [src/server.js] does not check [imageData]: a request
    whose body lacks it, made with a credential configured, goes to the
    upstream, with no image in the call. *)
Theorem missing_image_reaches_upstream `{Engine} (up : upstream) :
  exists url k,
    process_image Server with_key (post (Obj []))
    = Fetch url (generate_content prompt_server Undefined Undefined) k
    /\ calls_of up (process_image Server with_key (post (Obj [])))
       = (url, generate_content prompt_server Undefined Undefined)
           :: calls_of up (k (up url (generate_content prompt_server Undefined Undefined))).
Proof.
  eexists _, _. split; [reflexivity |]. apply calls_of_fetch.
Qed.

(** C1, as amended. For every valid image submission, if the upstream call
    succeeds and the first candidate carries the text [t], the gateway
    answers 200 with [res.json] of the value obtained by parsing [t] once its
    fences are stripped; when [t] is a JSON text, possibly wrapped in
    markdown fences, that holds no run of three backticks, this is the value
    of the JSON text itself, and the body is exactly that value when its
    numbers are finite: a number is parsed to the nearest binary64 number,
    and [res.json] sends one that is not finite as [null] and -0 as 0. (In
    the variants that log the length of the value: for a value other than
    null.) *)
Theorem fenced_json_returned `{Engine}
    (var : variant) (env : gmap string jsstring) (req : Request)
    (up : upstream) (r : reply) (t : jsstring) :
  submits_image req ->
  truthy (credential var env) = true ->
  answers up r ->
  generated r t ->
  (forall v,
     JSON.parse (strip_fences t) = Some v ->
     (logs_length var = true -> v <> Null) ->
     response_of up (process_image var env req) = inr (res_json 200 v))
  /\ (forall j v,
        fenced j t -> JSON.parse j = Some v -> includes fence j = false ->
        (logs_length var = true -> v <> Null) ->
        response_of up (process_image var env req) = inr (res_json 200 v)
        /\ (verbatim v = true ->
            response_of up (process_image var env req)
            = inr {| res_status := 200; res_body := Json v |})).
Proof.
  intros Hs Hk Hup Hg. split.
  - intros v Hp Hv. by apply (parsed_text_returned var env req up r t).
  - intros j v Hf Hp Hi Hv.
    assert (response_of up (process_image var env req) = inr (res_json 200 v)) as Hr.
    { apply (parsed_text_returned var env req up r t); try done.
      by apply (fenced_parse j t). }
    split; [done |]. intros Hb. rewrite Hr. unfold res_json.
    by rewrite serialized_verbatim.
Qed.

Lemma scenario_generated : generated (text_reply scenario_text) scenario_text.
Proof.
  split; [done |]. eexists. split; [vm_compute; reflexivity |].
  repeat split; vm_compute; reflexivity.
Qed.

Lemma fenced_json_returned_witness :
  response_of (always (text_reply scenario_text))
    (@process_image sample_engine Server with_key (post image_png))
  = inr {| res_status := 200; res_body := Json scenario_value |}.
Proof.
  apply (proj2 (@fenced_json_returned sample_engine Server with_key (post image_png)
                  (always (text_reply scenario_text)) (text_reply scenario_text)
                  scenario_text
                  (conj eq_refl eq_refl) eq_refl (fun _ _ => eq_refl)
                  scenario_generated)
           ([10%N] ++ scenario_json ++ [10%N]) scenario_value).
  - exists [], fence_json, fence, [].
    split; [reflexivity |]. split; [reflexivity |]. split; [reflexivity |].
    split; [right; right; reflexivity | right; reflexivity].
  - vm_compute. reflexivity.
  - vm_compute. reflexivity.
  - discriminate.
  - reflexivity.
Defined.

(** C1, as stated, fails.  A well-formed JSON text whose string holds a
    fence parses to an array with the string of three backticks, and the
    gateway answers with an array with the empty string.  A well-formed JSON
    text with a number beyond the range of binary64 parses to an array with
    an infinity, and the gateway answers with an array with [null]; and a
    number that binary64 does not hold is answered as its neighbour. *)
Lemma text_not_returned_verbatim :
  generated (text_reply (lit "[" ++ q "```" ++ lit "]")) (lit "[" ++ q "```" ++ lit "]")
  /\ JSON.parse (lit "[" ++ q "```" ++ lit "]") = Some (Arr [Str (lit "```")])
  /\ response_of (always (text_reply (lit "[" ++ q "```" ++ lit "]")))
       (@process_image sample_engine Server with_key (post image_png))
     = inr (res_json 200 (Arr [Str []]))
  /\ Arr [Str []] <> Arr [Str (lit "```")]
  /\ generated (text_reply (lit "[1e400]")) (lit "[1e400]")
  /\ JSON.parse (lit "[1e400]") = Some (Arr [Num (S754_infinity false)])
  /\ response_of (always (text_reply (lit "[1e400]")))
       (@process_image sample_engine Server with_key (post image_png))
     = inr {| res_status := 200; res_body := Json (Arr [Null]) |}
  /\ JSON.parse (lit "[9007199254740993]") = JSON.parse (lit "[9007199254740992]").
Proof.
  split.
  { split; [done |]. eexists. split; [vm_compute; reflexivity |].
    repeat split; vm_compute; reflexivity. }
  split; [vm_compute; reflexivity |].
  split; [vm_compute; reflexivity |].
  split; [discriminate |].
  split.
  { split; [done |]. eexists. split; [vm_compute; reflexivity |].
    repeat split; vm_compute; reflexivity. }
  split; [vm_compute; reflexivity |].
  split; vm_compute; reflexivity.
Qed.

(** C5, on the code. In [part_001] the text "not json" is answered 500, with
    the message of the SyntaxError and without the text. *)
Theorem unparsable_text_part_001 `{Engine} :
  response_of (always (text_reply (lit "not json")))
    (process_image Part001 with_key (post image_png))
  = inr (res_json 500
           (Obj [(lit "error", Str (json_syntax_message (lit "not json")))])).
Proof. vm_compute. reflexivity. Qed.

(** C6, on the code. A reply blocked for safety that has no candidates: in
    [src/server.js] the check of the candidates comes first, and the message
    of the answer does not mention SAFETY. *)
Theorem blocked_without_candidates_server `{Engine} :
  response_of (always blocked_reply)
    (process_image Server with_key (post image_png))
  = inr (res_json 500
           (Obj [(lit "error", Str (lit "Respuesta inválida del modelo. Verifica los logs para más detalles."));
                 (lit "note", Str (lit "Verifica que la API key esté configurada en Vercel Environment Variables"))]))
  /\ includes (lit "SAFETY")
       (lit "Respuesta inválida del modelo. Verifica los logs para más detalles.") = false.
Proof. split; vm_compute; reflexivity. Qed.

(** C7, on the code. A reply with status 429 and the error body of the
    upstream: [part_002] reads neither the status nor [error], and answers
    with a message that carries neither. *)
Theorem upstream_status_part_002 `{Engine} :
  response_of (always quota_reply)
    (process_image Part002 with_key (post image_png))
  = inr (res_json 500
           (Obj [(lit "error", Str (lit "Respuesta inválida del modelo. Verifica los logs para más detalles."))]))
  /\ includes (lit "429")
       (lit "Respuesta inválida del modelo. Verifica los logs para más detalles.") = false
  /\ includes (lit "Quota exceeded")
       (lit "Respuesta inválida del modelo. Verifica los logs para más detalles.") = false.
Proof. repeat split; vm_compute; reflexivity. Qed.

(** C9, on the code. In [src/server.js] the text "null" parses, and the log
    line that reads the length of the value throws: the answer is 500. *)
Theorem null_value_server `{Engine} :
  JSON.parse (lit "null") = Some Null
  /\ response_of (always (text_reply (lit "null")))
       (process_image Server with_key (post image_png))
     = inr (res_json 500
              (Obj [(lit "error", Str (type_error_message (ReadOfNullish Null (lit "length"))));
                    (lit "note", Str (lit "Verifica que la API key esté configurada en Vercel Environment Variables"))])).
Proof. split; vm_compute; reflexivity. Qed.


(** * The handlers as a whole *)

Section Shape.
Context `{Engine}.

Lemma pure_bind {A B} (m : prog A) (f : A -> prog B) :
  pure m -> (forall a, pure (f a)) -> pure (m ≫= f).
Proof. destruct m; simpl; auto. Qed.

Lemma pure_get v k : pure (get v k).
Proof. unfold get. by destruct (nullish v). Qed.

Lemma pure_destructure v k : pure (destructure v k).
Proof. unfold destructure. by destruct (nullish v). Qed.

Lemma pure_to_string v : pure (to_string v).
Proof. unfold to_string. by destruct (to_string_opt v). Qed.

Lemma pure_call_trim v : pure (call_trim v).
Proof. by destruct v. Qed.

Lemma pure_call_replace v p r : pure (call_replace v p r).
Proof. by destruct v. Qed.

Lemma pure_JSON_parse s : pure (JSON_parse s).
Proof. unfold JSON_parse. by destruct (JSON.parse s). Qed.

Lemma pure_response_json u r : pure (response_json u r).
Proof. unfold response_json. by destruct (JSON.parse (reply_text r)). Qed.

Lemma pure_get_path ks : forall v, pure (get_path v ks).
Proof.
  induction ks as [|k ks IH]; intros v; [done |].
  cbn [get_path]. apply pure_bind; [apply pure_get | done].
Qed.

Lemma pure_get_chain ks : forall v, pure (get_chain v ks).
Proof.
  induction ks as [|k ks IH]; intros v; [done |].
  cbn [get_chain]. destruct v; try done; (apply pure_bind; [apply pure_get | done]).
Qed.

Lemma pure_ret {A} (a : A) : pure (Ret a).
Proof. done. Qed.

Lemma pure_and a b : pure a -> pure b -> pure (and_ a b).
Proof. intros Ha Hb. apply pure_bind; [done |]. intros x. by destruct (truthy x). Qed.

Lemma pure_or a b : pure a -> pure b -> pure (or_ a b).
Proof. intros Ha Hb. apply pure_bind; [done |]. intros x. by destruct (truthy x). Qed.

Lemma pure_not a : pure a -> pure (not_ a).
Proof. intros Ha. by apply pure_bind. Qed.

Lemma pure_is a s : pure a -> pure (is_ a s).
Proof. intros Ha. by apply pure_bind. Qed.

End Shape.

Create HintDb pure discriminated.
#[export] Hint Resolve pure_get pure_destructure pure_to_string pure_call_trim
  pure_call_replace pure_JSON_parse pure_response_json pure_get_path
  pure_get_chain pure_ret pure_and pure_or pure_not pure_is : pure.

(** One step through a handler: the next computation makes no call, so it
    returns or throws; a condition is true or false. *)
Ltac walk_bind m :=
  let Hp := fresh "Hp" in
  assert (pure m) as Hp by (auto 10 with pure);
  destruct m as [? | ? | ? ? ?] eqn:?; [clear Hp | clear Hp | destruct Hp].

Ltac walk :=
  repeat (js_eval; cbn zeta beta;
    lazymatch goal with
    | |- one_call _ _ (try_catch (mbind _ (fetch _ _)) _) =>
        unfold fetch; js_eval; cbn [one_call]; intros [?|?]
    | |- one_call _ _ (try_catch (mbind _ ?m) _) => walk_bind m
    | |- settled _ (try_catch (mbind _ ?m) _) => walk_bind m
    | |- one_call _ _ (try_catch (if ?b then _ else _) _) => destruct b eqn:?
    | |- settled _ (try_catch (if ?b then _ else _) _) => destruct b eqn:?
    | |- one_call _ _ (try_catch (try_let ?m _ _) _) => walk_bind m
    | |- settled _ (try_catch (try_let ?m _ _) _) => walk_bind m
    end).

Section Shape2.
Context `{Engine}.

Lemma JSON_parse_ret (s : jsstring) (v : value) :
  JSON_parse s = Ret v -> JSON.parse s = Some v.
Proof. unfold JSON_parse. destruct (JSON.parse s); by intros [= ->]. Qed.

Lemma JSON_parse_throw (s : jsstring) (e : error) :
  JSON_parse s = Throw e -> JSON.parse s = None.
Proof. unfold JSON_parse. by destruct (JSON.parse s). Qed.

Lemma strip_fences_trimmed (s : jsstring) : trim (strip_fences s) = strip_fences s.
Proof. apply trim_idem. Qed.

Lemma get_ret_not_null (v a : value) (k : jsstring) :
  get v k = Ret a -> v <> Null.
Proof. unfold get. by destruct v. Qed.

Lemma response_json_ret (u : jsstring) (r : reply) (v : value) :
  response_json u r = Ret v -> JSON.parse (reply_text r) = Some v.
Proof. unfold response_json. destruct (JSON.parse (reply_text r)); by intros [= ->]. Qed.

Lemma get_ret (v a : value) (k : jsstring) : get v k = Ret a -> a = field v k.
Proof. unfold get. destruct (nullish v); by intros [= ->]. Qed.

Lemma get_path_ret (ks : list jsstring) : forall v a,
  get_path v ks = Ret a -> a = at_path v ks.
Proof.
  induction ks as [|k ks IH]; intros v a; cbn [get_path]; [by intros [= ->] |].
  unfold get. destruct (nullish v); [done |]. js_eval. apply IH.
Qed.

Lemma call_trim_ret (v : value) (s : jsstring) :
  call_trim v = Ret s -> exists t, v = Str t /\ s = trim t.
Proof. destruct v; try done. intros [= <-]. by eexists. Qed.

Lemma call_replace_ret (v : value) (p r s : jsstring) :
  call_replace v p r = Ret s -> exists t, v = Str t /\ s = replace_all p r t.
Proof. destruct v; try done. intros [= <-]. by eexists. Qed.

(** What the equations met on a walk say about the reply. *)
Ltac read_reply :=
  repeat match goal with
    | H : response_json _ _ = Ret _ |- _ => apply response_json_ret in H
    | H : get_path _ _ = Ret _ |- _ => apply get_path_ret in H
    | H : call_trim _ = Ret _ |- _ =>
        apply call_trim_ret in H; destruct H as (? & ? & ?)
    | H : call_replace _ _ _ = Ret _ |- _ =>
        apply call_replace_ret in H; destruct H as (? & ? & ?)
    | H : JSON_parse _ = Ret _ |- _ => apply JSON_parse_ret in H
    | H : JSON_parse _ = Throw _ |- _ => apply JSON_parse_throw in H
    end;
  subst; rewrite ?strip_fences_trim in *.

(** The answers at the end of a walk. *)
Ltac text_leaf :=
  unfold carries_text; eexists _, _;
  split; [reflexivity |]; split; [eassumption |];
  first [eassumption | symmetry; eassumption].

Ltac parsed_leaf :=
  left; eexists _, _;
  split; [text_leaf |];
  split; [eassumption |];
  split; [first [done | intros _; by eapply get_ret_not_null] | reflexivity].

Ltac unparsed_leaf :=
  right; left; split; [reflexivity |]; eexists;
  split; [text_leaf |];
  split; [eassumption | reflexivity].

Ltac leaf :=
  first
    [ by (right; eexists)
    | by (right; right; eexists)
    | by (left; repeat split; try done; by apply negb_true_iff)
    | parsed_leaf
    | unparsed_leaf ].

Lemma shape_002 env req :
  one_call (before_call Part002 req) (after_call Part002) (process_image_002 env req).
Proof.
  unfold process_image_002. walk; js_eval; cbn [one_call settled]; read_reply; leaf.
Qed.

Lemma shape_vercel model prompt var env req :
  validates_input var = false ->
  caught var = caught Server ->
  one_call (before_call var req) (after_call var)
    (process_image_vercel model prompt env req).
Proof.
  intros Hv Hc. unfold process_image_vercel. walk.
  all: js_eval; cbn [one_call settled]; unfold before_call, after_call;
    rewrite ?Hc, ?Hv; read_reply; leaf.
Qed.

Lemma shape_001 env req :
  one_call (before_call Part001 req) (after_call Part001) (process_image_001 env req).
Proof.
  unfold process_image_001. destruct (nullish (req_body req)) eqn:Hb.
  { unfold destructure. rewrite Hb. js_eval. right. by eexists. }
  rewrite !destructure_field by done. walk.
  all: js_eval; cbn [one_call settled].
  all: try (by (right; eexists)); try (by (right; right; eexists)).
  all: try (by (left; repeat split; try done; by apply negb_true_iff)).
  all: read_reply.
  all: apply get_ret in Heqp1; rewrite get_chain_at_path in Heqp2;
    injection Heqp2 as Heqp2; subst.
  all: change (trim (replace_all fence [] (replace_all fence_json [] ?s)))
         with (strip_fences s) in *.
  all: left; eexists _, _; split;
    [unfold carries_text; eexists _, _; split; [reflexivity |]; split; [eassumption |];
     exact Heqp2 |].
  all: split; [eassumption |]; split; [done | reflexivity].
Qed.

(** Every variant answers before the call or after exactly one call. *)
Lemma handler_shape var env req :
  one_call (before_call var req) (after_call var) (process_image var env req).
Proof.
  destruct var; unfold process_image.
  - by apply shape_vercel.
  - by apply shape_vercel.
  - apply shape_001.
  - apply shape_002.
Qed.

End Shape2.

Section Answers.
Context `{Engine}.

(** What a program of that shape gives when it is run. *)
Lemma one_call_run {A} (P0 : A -> Prop) (P1 : outcome -> A -> Prop)
    (m : prog A) (up : upstream) :
  one_call P0 P1 m ->
  exists a,
    response_of up m = inr a
    /\ ((calls_of up m = [] /\ P0 a)
        \/ (exists u b, calls_of up m = [(u, b)] /\ P1 (up u b) a)).
Proof.
  destruct m as [a | e | u b k]; cbn [one_call]; [| done |].
  - intros Ha. exists a. split; [done |]. by left.
  - intros Hk. specialize (Hk (up u b)).
    rewrite response_of_fetch, calls_of_fetch.
    destruct (k (up u b)) as [a | |]; try done.
    exists a. split; [done |]. right. by exists u, b.
Qed.

Lemma caught_status (var : variant) (msg : jsstring) :
  res_status (caught var msg) = 500%N.
Proof. by destruct var. Qed.

End Answers.

Section AppShape.
Context `{Engine} `{Express}.

Lemma app_shape var now env req :
  one_call (fun _ => True) (fun _ _ => True) (app var now env req).
Proof.
  assert (forall v, one_call (fun _ : Response => True) (fun _ _ => True)
                      (process_image v env req)) as Hp.
  { intros v. pose proof (handler_shape v env req) as Hs.
    destruct (process_image v env req) as [a | e | u b k]; try done.
    cbn [one_call] in *. intros o. specialize (Hs o). by destruct (k o). }
  destruct var; unfold app, app_vercel, app_plain;
    destruct (library_middleware req); try done;
    repeat (match goal with |- context [if ?c then _ else _] => destruct c end);
    try done; apply Hp.
Qed.

End AppShape.

(** X1. Whatever the request and whatever the upstream does, the application
    answers: no exception leaves a handler, every one is turned into a
    response. *)
Theorem app_always_answers `{Engine} `{Express}
    (var : variant) (now : jsstring) (env : gmap string jsstring)
    (req : Request) (up : upstream) :
  exists r, response_of up (app var now env req) = inr r.
Proof.
  destruct (one_call_run _ _ _ up (app_shape var now env req)) as (r & Hr & _).
  by exists r.
Qed.

(** X2. A request leads to at most one call of the upstream: there is no
    retry, whatever the outcome of the call. *)
Theorem app_calls_upstream_at_most_once `{Engine} `{Express}
    (var : variant) (now : jsstring) (env : gmap string jsstring)
    (req : Request) (up : upstream) :
  length (calls_of up (app var now env req)) <= 1.
Proof.
  destruct (one_call_run _ _ _ up (app_shape var now env req))
    as (r & _ & [[-> _] | (u & b & -> & _)]); simpl; lia.
Qed.

(** X3. The handler of the image route answers 200, 400 or 500, and nothing
    else. *)
Theorem handler_status_codes `{Engine}
    (var : variant) (env : gmap string jsstring) (req : Request) (up : upstream) :
  exists r,
    response_of up (process_image var env req) = inr r
    /\ (res_status r = 200%N \/ res_status r = 400%N \/ res_status r = 500%N).
Proof.
  destruct (one_call_run _ _ _ up (handler_shape var env req))
    as (r & Hr & [[_ Hb] | (u & b & _ & Ha)]); exists r; (split; [done |]).
  - destruct Hb as [(_ & _ & ->) | [msg ->]]; [by right; left |].
    right; right. apply caught_status.
  - destruct Ha as [(t & v & _ & _ & _ & ->) | [(_ & t & _ & _ & ->) | [msg ->]]];
      [by left | by right; left |].
    right; right. apply caught_status.
Qed.

(** X4. An answer given without calling the upstream is the 400 of the
    variant that validates its input, for a falsy [imageData], or a 500:
    never a 200. *)
Theorem answer_without_call `{Engine}
    (var : variant) (env : gmap string jsstring) (req : Request) (up : upstream) :
  calls_of up (process_image var env req) = [] ->
  exists r,
    response_of up (process_image var env req) = inr r
    /\ ((validates_input var = true
         /\ truthy (field (req_body req) (lit "imageData")) = false
         /\ r = no_image_data)
        \/ exists msg, r = caught var msg).
Proof.
  intros Hc.
  destruct (one_call_run _ _ _ up (handler_shape var env req))
    as (r & Hr & [[_ Hb] | (u & b & Hc' & _)]); [by exists r |].
  by rewrite Hc in Hc'.
Qed.

Lemma answer_without_call_witness :
  exists r,
    response_of (always blocked_reply)
      (@process_image sample_engine Part001 with_key (post (Obj []))) = inr r
    /\ ((validates_input Part001 = true
         /\ truthy (field (req_body (post (Obj []))) (lit "imageData")) = false
         /\ r = no_image_data)
        \/ exists msg, r = caught Part001 msg).
Proof.
  apply (@answer_without_call sample_engine Part001 with_key (post (Obj []))
           (always blocked_reply)).
  reflexivity.
Defined.

(** X5. A 400 has one meaning per variant. In the variant that validates its
    input: [imageData] is falsy and the upstream was not called. In the
    others: the upstream was called once, the call resolved with a JSON body
    whose first candidate carries a string as its text, that text, cleaned,
    does not parse, and it is what the answer returns as [raw]. *)
Theorem bad_request_meaning `{Engine}
    (var : variant) (env : gmap string jsstring) (req : Request) (up : upstream)
    (r : Response) :
  response_of up (process_image var env req) = inr r ->
  res_status r = 400%N ->
  (validates_input var = true
   /\ truthy (field (req_body req) (lit "imageData")) = false
   /\ r = no_image_data
   /\ calls_of up (process_image var env req) = [])
  \/ (validates_input var = false
      /\ exists u b t,
           calls_of up (process_image var env req) = [(u, b)]
           /\ carries_text (up u b) t
           /\ JSON.parse (strip_fences t) = None
           /\ r = parse_error (strip_fences t)).
Proof.
  intros Hr Hs.
  destruct (one_call_run _ _ _ up (handler_shape var env req))
    as (r' & Hr' & Hcases).
  rewrite Hr in Hr'. injection Hr' as <-.
  destruct Hcases as [[Hc Hb] | (u & b & Hc & Ha)].
  - destruct Hb as [(Hv & Hi & ->) | [msg ->]]; [by left |].
    by rewrite caught_status in Hs.
  - destruct Ha as [(t & v & _ & _ & _ & ->) | [(Hv & t & Ht & Hp & ->) | [msg ->]]];
      [done | | by rewrite caught_status in Hs].
    right. split; [done |]. by exists u, b, t.
Qed.

Lemma bad_request_meaning_witness :
  (validates_input Server = true
   /\ truthy (field (req_body (post image_png)) (lit "imageData")) = false
   /\ parse_error (lit "no data") = no_image_data
   /\ calls_of (always (text_reply (lit " no data ")))
        (@process_image sample_engine Server with_key (post image_png)) = [])
  \/ (validates_input Server = false
      /\ exists u b t,
           calls_of (always (text_reply (lit " no data ")))
             (@process_image sample_engine Server with_key (post image_png))
           = [(u, b)]
           /\ carries_text (always (text_reply (lit " no data ")) u b) t
           /\ JSON.parse (strip_fences t) = None
           /\ parse_error (lit "no data") = parse_error (strip_fences t)).
Proof.
  apply (@bad_request_meaning sample_engine Server with_key (post image_png)
           (always (text_reply (lit " no data "))) (parse_error (lit "no data")));
    vm_compute; reflexivity.
Defined.

(** X6. A 200 is given only after exactly one call of the upstream, which
    resolved with a JSON body whose first candidate carries a string as its
    text; the answer is [res.json] of the value that [JSON.parse] gives for
    that text, cleaned.  The value is never [undefined] and, in the variants
    that log its length, never [null]; the body is the value itself when it
    holds only finite numbers (and no negative zero), and has [null] for a
    number that is not finite. *)
Theorem success_body_parsed `{Engine}
    (var : variant) (env : gmap string jsstring) (req : Request) (up : upstream)
    (r : Response) :
  response_of up (process_image var env req) = inr r ->
  res_status r = 200%N ->
  exists u b t v,
    calls_of up (process_image var env req) = [(u, b)]
    /\ carries_text (up u b) t
    /\ JSON.parse (strip_fences t) = Some v
    /\ r = res_json 200 v
    /\ res_body r = Json (serialized v)
    /\ (verbatim v = true -> res_body r = Json v)
    /\ v <> Undefined
    /\ (logs_length var = true -> v <> Null).
Proof.
  intros Hr Hs.
  destruct (one_call_run _ _ _ up (handler_shape var env req))
    as (r' & Hr' & Hcases).
  rewrite Hr in Hr'. injection Hr' as <-.
  destruct Hcases as [[Hc Hb] | (u & b & Hc & Ha)].
  - destruct Hb as [(Hv & Hi & ->) | [msg ->]]; [done |].
    by rewrite caught_status in Hs.
  - destruct Ha as [(t & v & Ht & Hp & Hn & ->) | [(Hv & t & _ & _ & ->) | [msg ->]]];
      [| done | by rewrite caught_status in Hs].
    exists u, b, t, v. repeat split; try done.
    + intros Hv. cbn [res_json res_body]. by rewrite serialized_verbatim.
    + by apply (parse_defined (strip_fences t)).
Qed.

Lemma success_body_parsed_witness :
  exists u b t v,
    calls_of (always (text_reply scenario_text))
      (@process_image sample_engine Part002 with_key (post image_png)) = [(u, b)]
    /\ carries_text (always (text_reply scenario_text) u b) t
    /\ JSON.parse (strip_fences t) = Some v
    /\ res_json 200 scenario_value = res_json 200 v
    /\ res_body (res_json 200 scenario_value) = Json (serialized v)
    /\ (verbatim v = true -> res_body (res_json 200 scenario_value) = Json v)
    /\ v <> Undefined
    /\ (logs_length Part002 = true -> v <> Null).
Proof.
  apply (@success_body_parsed sample_engine Part002 with_key (post image_png)
           (always (text_reply scenario_text)) (res_json 200 scenario_value));
    vm_compute; reflexivity.
Defined.

Section Branches.
Context `{Engine}.

Lemma credential_key (var : variant) (env : gmap string jsstring) :
  truthy (credential var env) = true -> exists key, credential var env = Str key.
Proof.
  destruct var; unfold credential; try apply resolved_key;
    unfold env_var; destruct (env !! "GEMINI_API_KEY"); simpl; eauto; done.
Qed.

(** Up to the call: the program of a configured variant for a request it
    accepts. *)
Lemma up_to_call (var : variant) (env : gmap string jsstring) (req : Request)
    (key : jsstring) :
  nullish (req_body req) = false ->
  credential var env = Str key -> key <> [] ->
  (validates_input var = true ->
   truthy (field (req_body req) (lit "imageData")) = true) ->
  match process_image var env req with
  | Fetch u b _ =>
      u = endpoint var key
      /\ b = generate_content (prompt_of var)
               (media_type_sent var (field (req_body req) (lit "mediaType")))
               (field (req_body req) (lit "imageData"))
  | _ => False
  end.
Proof.
  intros Hb Hk Hne Hi.
  assert (truthy (Str key) = true) as Ht by (by destruct key).
  destruct var; unfold process_image, process_image_vercel, process_image_001,
    process_image_002, credential in *.
  all: rewrite !destructure_field by done; js_eval.
  all: rewrite ?Hi by done; js_eval.
  all: rewrite Hk, ?Ht; js_eval; rewrite to_string_str; js_eval.
  all: unfold fetch; js_eval.
  all: unfold endpoint, model_of, prompt_of, media_type_sent, validates_input;
    cbv beta iota; split; [vm_compute; reflexivity | reflexivity].
Qed.

End Branches.

(** X7. A configured variant that accepts the request calls the endpoint of
    its model with the key as the [key] parameter of the address, and sends
    its instruction with the image data as received and the media type as
    received; the variant that validates its input sends image/png for a
    falsy media type. *)
Theorem upstream_request `{Engine}
    (var : variant) (env : gmap string jsstring) (req : Request) (up : upstream) :
  nullish (req_body req) = false ->
  truthy (credential var env) = true ->
  (validates_input var = true ->
   truthy (field (req_body req) (lit "imageData")) = true) ->
  exists key,
    credential var env = Str key
    /\ calls_of up (process_image var env req)
       = [(models ++ lit (model_of var) ++ lit ":generateContent?key=" ++ key,
           generate_content (prompt_of var)
             (if validates_input var
              then or_else (field (req_body req) (lit "mediaType")) (Str (lit "image/png"))
              else field (req_body req) (lit "mediaType"))
             (field (req_body req) (lit "imageData")))].
Proof.
  intros Hb Hk Hi. destruct (credential_key var env Hk) as [key Hkey].
  exists key. split; [done |].
  assert (key <> []) as Hne by (intros ->; by rewrite Hkey in Hk).
  pose proof (up_to_call var env req key Hb Hkey Hne Hi) as Hp.
  destruct (one_call_run _ _ _ up (handler_shape var env req))
    as (r & _ & Hcases).
  destruct (process_image var env req) as [a | e | u b k]; try done.
  destruct Hp as [-> ->]. rewrite calls_of_fetch in *.
  destruct Hcases as [[Hc _] | (u' & b' & Hc & _)]; [done |].
  injection Hc as _ _ ->. done.
Qed.

Lemma upstream_request_witness :
  exists key,
    credential Part001 with_key = Str key
    /\ calls_of (always blocked_reply)
         (@process_image sample_engine Part001 with_key
            (post (Obj [(lit "imageData", Str (lit "iVBORw0KGgo="))])))
       = [(models ++ lit (model_of Part001) ++ lit ":generateContent?key=" ++ key,
           generate_content (prompt_of Part001)
             (if validates_input Part001
              then or_else
                     (field (req_body (post (Obj [(lit "imageData", Str (lit "iVBORw0KGgo="))])))
                        (lit "mediaType"))
                     (Str (lit "image/png"))
              else field (req_body (post (Obj [(lit "imageData", Str (lit "iVBORw0KGgo="))])))
                     (lit "mediaType"))
             (field (req_body (post (Obj [(lit "imageData", Str (lit "iVBORw0KGgo="))])))
                (lit "imageData")))].
Proof.
  apply (@upstream_request sample_engine Part001 with_key
           (post (Obj [(lit "imageData", Str (lit "iVBORw0KGgo="))]))
           (always blocked_reply));
    [reflexivity | reflexivity | intros _; reflexivity].
Defined.

(** Entering a handler: from the request to the parsed reply. *)
Ltac enter_vercel Hb Hk Hup Hj :=
  unfold process_image, process_image_vercel, credential in *;
  rewrite !destructure_field by exact Hb; js_eval; rewrite Hk; js_eval;
  destruct (resolved_key _ Hk) as [? ->];
  rewrite to_string_str; js_eval; unfold fetch; js_eval;
  rewrite response_of_fetch, Hup; js_eval;
  rewrite (response_json_parsed _ _ _ Hj); js_eval.

Ltac enter_002 Hb Hk Hup Hj :=
  unfold process_image, process_image_002, credential in *;
  rewrite !destructure_field by exact Hb; js_eval; rewrite Hk; js_eval;
  unfold env_var in *;
  destruct (_ !! "GEMINI_API_KEY") as [?|]; [| done];
  cbn [from_option]; rewrite to_string_str; js_eval; unfold fetch; js_eval;
  rewrite response_of_fetch, Hup; js_eval;
  rewrite (response_json_parsed _ _ _ Hj); js_eval.

Ltac enter_001 Hb Hi Hk Hup :=
  unfold process_image, process_image_001, credential in *;
  rewrite !destructure_field by exact Hb; js_eval; rewrite Hi; js_eval;
  rewrite Hk; js_eval; unfold env_var in *;
  destruct (_ !! "GEMINI_API_KEY") as [?|]; [| done];
  cbn [from_option]; rewrite to_string_str; js_eval; unfold fetch; js_eval;
  rewrite response_of_fetch, Hup; js_eval.

Section Branches2.
Context `{Engine}.

Lemma truthy_defined (v : value) : truthy v = true -> nullish v = false.
Proof. by destruct v. Qed.

Lemma field_defined (v : value) (k : jsstring) :
  nullish (field v k) = false -> nullish v = false.
Proof. by destruct v. Qed.

Lemma truthy_string (s : jsstring) : s <> [] -> truthy (Str s) = true.
Proof. by destruct s. Qed.

End Branches2.

(** X8. [src/server.js] and [part_000] answer a reply that carries [error]
    with 500 and the message of that error after "API Error: ", or
    "Unknown error" when the error has no message; nothing else of the reply
    is looked at. *)
Theorem upstream_error_reported `{Engine}
    (var : variant) (env : gmap string jsstring) (req : Request)
    (up : upstream) (r : reply) (json : value) :
  logs_length var = true ->
  nullish (req_body req) = false ->
  truthy (credential var env) = true ->
  answers up r ->
  JSON.parse (reply_text r) = Some json ->
  truthy (field json (lit "error")) = true ->
  (forall m,
     field (field json (lit "error")) (lit "message") = Str m -> m <> [] ->
     response_of up (process_image var env req)
     = inr (caught var (lit "API Error: " ++ m)))
  /\ (truthy (field (field json (lit "error")) (lit "message")) = false ->
      response_of up (process_image var env req)
      = inr (caught var (lit "API Error: Unknown error"))).
Proof.
  intros Hv Hb Hk Hup Hj He.
  pose proof (truthy_defined _ He) as He'.
  pose proof (field_defined _ _ He') as H0.
  split.
  - intros m Hm Hne. pose proof (truthy_string m Hne) as Ht.
    destruct var; try done; enter_vercel Hb Hk Hup Hj.
    all: rewrite (get_field json (lit "error") H0); js_eval; rewrite He; js_eval.
    all: unfold or_; cbn [get_path]; rewrite (get_field json (lit "error") H0); js_eval.
    all: rewrite (get_field _ (lit "message") He'); js_eval.
    all: rewrite Hm, Ht; js_eval; rewrite to_string_str; js_eval; done.
  - intros Hm.
    destruct var; try done; enter_vercel Hb Hk Hup Hj.
    all: rewrite (get_field json (lit "error") H0); js_eval; rewrite He; js_eval.
    all: unfold or_; cbn [get_path]; rewrite (get_field json (lit "error") H0); js_eval.
    all: rewrite (get_field _ (lit "message") He'); js_eval.
    all: rewrite Hm; js_eval; rewrite to_string_str; js_eval; done.
Qed.

Lemma upstream_error_reported_witness :
  response_of (always quota_reply)
    (@process_image sample_engine Part000 with_key (post image_png))
  = inr (caught Part000 (lit "API Error: " ++ lit "Quota exceeded")).
Proof.
  edestruct (@upstream_error_reported sample_engine Part000 with_key (post image_png)
               (always quota_reply) quota_reply) as [W _];
    [reflexivity | reflexivity | reflexivity | intros ? ?; reflexivity
    | vm_compute; reflexivity | reflexivity |].
  apply (W (lit "Quota exceeded")); [reflexivity | discriminate].
Defined.

Section Branches3.
Context `{Engine}.

Lemma has_candidate_when (json : value) :
  nullish json = false ->
  truthy (at_path json [lit "candidates"; lit "0"]) = true ->
  or_ (not_ (get json (lit "candidates")))
      (not_ (get_path json [lit "candidates"; lit "0"])) = Ret (Bool false).
Proof.
  intros H0 H3.
  pose proof (truthy_defined _ H3) as H2.
  assert (truthy (field json (lit "candidates")) = true) as H1
    by (by apply (truthy_of_field _ (lit "0"))).
  unfold or_, not_. rewrite (get_field json _ H0). js_eval. rewrite H1.
  cbn [negb truthy]. rewrite (get_path_defined json _ H2). js_eval.
  by rewrite H3.
Qed.

Lemma get_nullish (v : value) (k : jsstring) :
  nullish v = true -> get v k = throw_TypeError (ReadOfNullish v k).
Proof. intros Hv. unfold get. by rewrite Hv. Qed.

Lemma is_string_same (s : jsstring) : is_string (Str s) s = true.
Proof. unfold is_string, eqb. by apply bool_decide_eq_true. Qed.

Lemma recitation_not_safety : is_string (Str (lit "RECITATION")) (lit "SAFETY") = false.
Proof. vm_compute. reflexivity. Qed.

Lemma is_filtered (candidate : value) (reason : jsstring) :
  nullish candidate = false ->
  field candidate (lit "finishReason") = Str reason ->
  reason = lit "SAFETY" \/ reason = lit "RECITATION" ->
  or_ (is_ (get candidate (lit "finishReason")) "SAFETY")
      (is_ (get candidate (lit "finishReason")) "RECITATION") = Ret (Bool true).
Proof.
  intros H0 Hf Hr. unfold or_, is_. rewrite (get_field _ _ H0). js_eval.
  rewrite Hf. destruct Hr as [-> | ->].
  - by rewrite is_string_same.
  - rewrite recitation_not_safety. cbn [truthy]. js_eval. by rewrite is_string_same.
Qed.

Lemma is_blocked (json : value) (reason : jsstring) :
  at_path json [lit "promptFeedback"; lit "blockReason"] = Str reason ->
  reason <> [] ->
  and_ (get json (lit "promptFeedback"))
       (get_path json [lit "promptFeedback"; lit "blockReason"]) = Ret (Str reason)
  /\ get_path json [lit "promptFeedback"; lit "blockReason"] = Ret (Str reason).
Proof.
  intros Hs Hne.
  assert (nullish (at_path json [lit "promptFeedback"; lit "blockReason"]) = false)
    as Hn by (by rewrite Hs).
  pose proof (at_path_prefix json [] _ Hn ltac:(done)) as H0.
  pose proof (at_path_prefix json [lit "promptFeedback"] [lit "blockReason"] Hn ltac:(done)) as H1.
  assert (truthy (field json (lit "promptFeedback")) = true) as Ht
    by (by apply (truthy_of_field _ (lit "blockReason"))).
  rewrite (get_path_defined json _ Hn), Hs. split; [| done].
  unfold and_. rewrite (get_field json (lit "promptFeedback") H0). js_eval.
  by rewrite Ht.
Qed.

Lemma endpoint_of (var : variant) (key : jsstring) :
  endpoint var key =
    match var with
    | Server => models ++ lit "gemini-1.5-pro" ++ lit ":generateContent?key=" ++ key
    | Part000 => models ++ lit "gemini-2.0-flash" ++ lit ":generateContent?key=" ++ key
    | Part001 => models ++ lit "gemini-2.0-flash-exp:generateContent?key=" ++ key
    | Part002 => models ++ lit "gemini-2.0-flash:generateContent?key=" ++ key
    end.
Proof. destruct var; vm_compute; reflexivity. Qed.

End Branches3.

(** X9. The variants other than [part_001] refuse a first candidate whose
    finish reason is SAFETY or RECITATION: the answer is 500 and names the
    reason, whatever text the candidate carries. *)
Theorem filtered_candidate_refused `{Engine}
    (var : variant) (env : gmap string jsstring) (req : Request)
    (up : upstream) (r : reply) (json : value) (reason : jsstring) :
  validates_input var = false ->
  nullish (req_body req) = false ->
  truthy (credential var env) = true ->
  answers up r ->
  JSON.parse (reply_text r) = Some json ->
  (logs_length var = true -> truthy (field json (lit "error")) = false) ->
  truthy (at_path json [lit "promptFeedback"; lit "blockReason"]) = false ->
  at_path json [lit "candidates"; lit "0"; lit "finishReason"] = Str reason ->
  reason = lit "SAFETY" \/ reason = lit "RECITATION" ->
  response_of up (process_image var env req)
  = inr (caught var (lit "Contenido filtrado por: " ++ reason)).
Proof.
  intros Hv Hb Hk Hup Hj He Hbl Hf Hr.
  assert (nullish (at_path json [lit "candidates"; lit "0"; lit "finishReason"]) = false)
    as Hn by (by rewrite Hf).
  pose proof (at_path_prefix json [] _ Hn ltac:(done)) as H0.
  pose proof (at_path_prefix json [lit "candidates"; lit "0"] [lit "finishReason"]
                Hn ltac:(done)) as H2.
  assert (truthy (at_path json [lit "candidates"; lit "0"]) = true) as H3
    by (by apply (truthy_of_field _ (lit "finishReason"))).
  destruct (not_blocked json H0 Hbl) as (b & Hb1 & Hb2).
  pose proof (is_filtered _ reason H2 Hf Hr) as Hfil.
  destruct var; try done.
  1,2: enter_vercel Hb Hk Hup Hj;
       rewrite (get_field json (lit "error") H0); js_eval; rewrite He by done; js_eval;
       rewrite (has_candidate_when json H0 H3); js_eval; cbn [truthy];
       rewrite Hb1; js_eval; rewrite Hb2.
  3: enter_002 Hb Hk Hup Hj; rewrite Hb1; js_eval; rewrite Hb2;
     rewrite (has_candidate_when json H0 H3); js_eval; cbn [truthy].
  all: rewrite (get_path_defined json _ H2); js_eval; rewrite Hfil; js_eval;
       cbn [truthy]; rewrite (get_field _ (lit "finishReason") H2); js_eval;
       change (field (at_path json [lit "candidates"; lit "0"]) (lit "finishReason"))
         with (at_path json [lit "candidates"; lit "0"; lit "finishReason"]);
       rewrite Hf, to_string_str; js_eval; done.
Qed.

Lemma filtered_candidate_refused_witness :
  response_of (always filtered_reply)
    (@process_image sample_engine Server with_key (post image_png))
  = inr (caught Server (lit "Contenido filtrado por: " ++ lit "RECITATION")).
Proof.
  eapply (@filtered_candidate_refused sample_engine Server with_key (post image_png)
            (always filtered_reply) filtered_reply _ (lit "RECITATION"));
    [reflexivity | reflexivity | reflexivity | intros ? ?; reflexivity
    | vm_compute; reflexivity | intros _; reflexivity | reflexivity | reflexivity
    | right; reflexivity].
Defined.

(** X10. The variants other than [part_001] answer a reply that names a
    block reason with 500 and that reason: [part_002] whatever else the reply
    holds, [src/server.js] and [part_000] when the reply has no [error] and
    has a first candidate. *)
Theorem block_reason_reported `{Engine}
    (var : variant) (env : gmap string jsstring) (req : Request)
    (up : upstream) (r : reply) (json : value) (reason : jsstring) :
  validates_input var = false ->
  nullish (req_body req) = false ->
  truthy (credential var env) = true ->
  answers up r ->
  JSON.parse (reply_text r) = Some json ->
  (logs_length var = true ->
   truthy (field json (lit "error")) = false
   /\ truthy (at_path json [lit "candidates"; lit "0"]) = true) ->
  at_path json [lit "promptFeedback"; lit "blockReason"] = Str reason ->
  reason <> [] ->
  response_of up (process_image var env req)
  = inr (caught var (lit "Contenido bloqueado por seguridad: " ++ reason)).
Proof.
  intros Hv Hb Hk Hup Hj Hc Hs Hne.
  destruct (is_blocked json reason Hs Hne) as [Hand Hget].
  pose proof (truthy_string reason Hne) as Ht.
  assert (nullish (at_path json [lit "promptFeedback"; lit "blockReason"]) = false)
    as Hn by (by rewrite Hs).
  pose proof (at_path_prefix json [] _ Hn ltac:(done)) as H0.
  destruct var; try done.
  1,2: destruct (Hc eq_refl) as [He H3]; enter_vercel Hb Hk Hup Hj;
       rewrite (get_field json (lit "error") H0); js_eval; rewrite He; js_eval;
       rewrite (has_candidate_when json H0 H3); js_eval; cbn [truthy].
  3: enter_002 Hb Hk Hup Hj.
  all: rewrite Hand; js_eval; rewrite Ht, Hget; js_eval;
       rewrite to_string_str; js_eval; done.
Qed.

Lemma block_reason_reported_witness :
  response_of (always blocked_with_candidates)
    (@process_image sample_engine Server with_key (post image_png))
  = inr (caught Server (lit "Contenido bloqueado por seguridad: " ++ lit "OTHER")).
Proof.
  eapply (@block_reason_reported sample_engine Server with_key (post image_png)
            (always blocked_with_candidates) blocked_with_candidates _ (lit "OTHER"));
    [reflexivity | reflexivity | reflexivity | intros ? ?; reflexivity
    | vm_compute; reflexivity | intros _; split; reflexivity | reflexivity
    | discriminate].
Defined.

(** X11. A reply whose body is not JSON is answered 500 with the message of
    the error with which [response.json()] rejects, whose wording is the
    engine's, for the address of the call and that body; the variant that
    validates its input reads the body as JSON only when the status is a
    success. *)
Theorem non_json_reply `{Engine}
    (var : variant) (env : gmap string jsstring) (req : Request)
    (up : upstream) (r : reply) (key : jsstring) :
  submits_image req ->
  credential var env = Str key -> key <> [] ->
  answers up r ->
  JSON.parse (reply_text r) = None ->
  (validates_input var = true -> ok r = true) ->
  response_of up (process_image var env req)
  = inr (caught var
           (invalid_json_body_message (endpoint var key)
              (json_syntax_message (reply_text r)))).
Proof.
  intros [Hb Hi] Hkey Hne Hup Hj Hok.
  pose proof (truthy_string key Hne) as Ht.
  rewrite endpoint_of.
  destruct var;
    unfold process_image, process_image_vercel, process_image_001,
      process_image_002, credential in *;
    rewrite !destructure_field by done; js_eval; rewrite ?Hi; js_eval;
    rewrite Hkey, ?Ht; js_eval; rewrite to_string_str; js_eval;
    unfold fetch; js_eval; rewrite response_of_fetch, Hup; js_eval;
    rewrite ?Hok by done; js_eval;
    unfold response_json; rewrite Hj; js_eval; done.
Qed.

Lemma non_json_reply_witness :
  response_of (always html_reply)
    (@process_image sample_engine Part002 with_key (post image_png))
  = inr (caught Part002
           (@invalid_json_body_message sample_engine
              (endpoint Part002 (lit "AIzaSy-sample"))
              (@json_syntax_message sample_engine (reply_text html_reply)))).
Proof.
  apply (@non_json_reply sample_engine Part002 with_key (post image_png)
           (always html_reply) html_reply (lit "AIzaSy-sample"));
    [split; reflexivity | reflexivity | discriminate | intros ? ?; reflexivity
    | vm_compute; reflexivity | discriminate].
Defined.

(** X12. [part_001] reads the text through optional chaining: when the reply
    has no first text, wherever the path to it ends, or an empty one, the
    answer is 500 "No data returned from AI"; no TypeError arises. *)
Theorem missing_text_part_001 `{Engine}
    (env : gmap string jsstring) (req : Request)
    (up : upstream) (r : reply) (data : value) :
  submits_image req ->
  truthy (credential Part001 env) = true ->
  answers up r ->
  ok r = true ->
  JSON.parse (reply_text r) = Some data ->
  nullish data = false ->
  truthy (at_path data candidate_text) = false ->
  response_of up (process_image Part001 env req)
  = inr (caught Part001 (lit "No data returned from AI")).
Proof.
  intros [Hb Hi] Hk Hup Hok Hj H0 Ht.
  enter_001 Hb Hi Hk Hup. rewrite Hok. js_eval.
  rewrite (response_json_parsed _ _ _ Hj). js_eval.
  rewrite (get_field data (lit "candidates") H0). js_eval.
  rewrite get_chain_at_path. js_eval.
  change (at_path (field data (lit "candidates"))
            [lit "0"; lit "content"; lit "parts"; lit "0"; lit "text"])
    with (at_path data candidate_text).
  rewrite Ht. js_eval. done.
Qed.

Lemma missing_text_part_001_witness :
  response_of (always empty_candidate_reply)
    (@process_image sample_engine Part001 with_key (post image_png))
  = inr (caught Part001 (lit "No data returned from AI")).
Proof.
  eapply (@missing_text_part_001 sample_engine with_key (post image_png)
            (always empty_candidate_reply) empty_candidate_reply);
    [split; reflexivity | reflexivity | intros ? ?; reflexivity | reflexivity
    | vm_compute; reflexivity | reflexivity | reflexivity].
Defined.

(** X13. In the variants other than [part_001] a first candidate without
    [content] makes the read of its parts throw; the answer is 500 with the
    message of that TypeError. *)
Theorem missing_content_throws `{Engine}
    (var : variant) (env : gmap string jsstring) (req : Request)
    (up : upstream) (r : reply) (json : value) :
  validates_input var = false ->
  nullish (req_body req) = false ->
  truthy (credential var env) = true ->
  answers up r ->
  JSON.parse (reply_text r) = Some json ->
  (logs_length var = true -> truthy (field json (lit "error")) = false) ->
  truthy (at_path json [lit "promptFeedback"; lit "blockReason"]) = false ->
  truthy (at_path json [lit "candidates"; lit "0"]) = true ->
  is_string (at_path json [lit "candidates"; lit "0"; lit "finishReason"])
    (lit "SAFETY") = false ->
  is_string (at_path json [lit "candidates"; lit "0"; lit "finishReason"])
    (lit "RECITATION") = false ->
  nullish (at_path json [lit "candidates"; lit "0"; lit "content"]) = true ->
  response_of up (process_image var env req)
  = inr (caught var
           (type_error_message
              (ReadOfNullish (at_path json [lit "candidates"; lit "0"; lit "content"])
                 (lit "parts")))).
Proof.
  intros Hv Hb Hk Hup Hj He Hbl H3 Hs Hr Hc.
  pose proof (truthy_defined _ H3) as H2.
  pose proof (at_path_prefix json [] [lit "candidates"; lit "0"] H2 ltac:(done)) as H0.
  pose proof (at_path_prefix json [lit "candidates"] [lit "0"] H2 ltac:(done)) as H1.
  destruct (not_blocked json H0 Hbl) as (b & Hb1 & Hb2).
  destruct var; try done.
  1,2: enter_vercel Hb Hk Hup Hj;
       rewrite (get_field json (lit "error") H0); js_eval; rewrite He by done; js_eval;
       rewrite (has_candidate_when json H0 H3); js_eval; cbn [truthy];
       rewrite Hb1; js_eval; rewrite Hb2.
  3: enter_002 Hb Hk Hup Hj; rewrite Hb1; js_eval; rewrite Hb2;
     rewrite (has_candidate_when json H0 H3); js_eval; cbn [truthy].
  all: rewrite (get_path_defined json _ H2); js_eval;
       rewrite (not_filtered _ H2 Hs Hr); js_eval; cbn [truthy];
       unfold candidate_text; cbn [get_path];
       rewrite (get_field json (lit "candidates") H0); js_eval;
       rewrite (get_field _ (lit "0") H1); js_eval;
       rewrite (get_field _ (lit "content") H2); js_eval;
       cbn [at_path fold_left] in *;
       rewrite (get_nullish _ (lit "parts") Hc); unfold throw_TypeError; js_eval; done.
Qed.

Lemma missing_content_throws_witness :
  response_of (always empty_candidate_reply)
    (@process_image sample_engine Part002 with_key (post image_png))
  = inr (caught Part002
           (@type_error_message sample_engine
              (ReadOfNullish
                 (at_path
                    (Obj [(lit "candidates",
                           Arr [Obj [(lit "finishReason", Str (lit "STOP"))]])])
                    [lit "candidates"; lit "0"; lit "content"])
                 (lit "parts")))).
Proof.
  apply (@missing_content_throws sample_engine Part002 with_key (post image_png)
           (always empty_candidate_reply) empty_candidate_reply
           (Obj [(lit "candidates",
                  Arr [Obj [(lit "finishReason", Str (lit "STOP"))]])]));
    [reflexivity | reflexivity | reflexivity | intros ? ?; reflexivity
    | vm_compute; reflexivity | discriminate | reflexivity | reflexivity
    | reflexivity | reflexivity | reflexivity].
Defined.

Section CleanupFacts.

Lemma replace_from_length (p : jsstring) (s : jsstring) : forall k,
  length (replace_from p [] k s) <= length s.
Proof.
  induction s as [|c s IH]; intros k; [done |].
  cbn [replace_from]. destruct k as [|k].
  - destruct (starts_with p (c :: s)).
    + rewrite app_nil_l. cbn [length]. specialize (IH (length p - 1)). lia.
    + cbn [length]. specialize (IH 0). lia.
  - cbn [length]. specialize (IH k). lia.
Qed.

Lemma trim_length (s : jsstring) : length (trim s) <= length s.
Proof.
  destruct (trim_infix s) as (a & b & Hs & _).
  rewrite Hs at 2. rewrite !length_app. lia.
Qed.

End CleanupFacts.

(** X14. The cleaned text holds no run of three backticks, has no white
    space at either end, and is never longer than the text it comes from. *)
Theorem cleaned_text_shape (s : jsstring) :
  includes fence (strip_fences s) = false
  /\ trim (strip_fences s) = strip_fences s
  /\ length (strip_fences s) <= length s.
Proof.
  split; [apply strip_fences_clean |]. split; [apply trim_idem |].
  unfold strip_fences.
  pose proof (trim_length (replace_all fence [] (replace_all fence_json [] s))).
  pose proof (replace_from_length fence (replace_all fence_json [] s) 0).
  pose proof (replace_from_length fence_json s 0).
  unfold replace_all in *. lia.
Qed.

(** X15. White space around the text does not change the cleaned text; so
    the variants that trim the text before they clean it and the variant that
    does not clean alike. *)
Theorem cleanup_ignores_outer_space (w1 s w2 : jsstring) :
  forallb is_white_space w1 = true ->
  forallb is_white_space w2 = true ->
  strip_fences (w1 ++ s ++ w2) = strip_fences s
  /\ strip_fences (trim s) = strip_fences s.
Proof.
  intros H1 H2. split; [| apply strip_fences_trim].
  unfold strip_fences.
  rewrite (replace_all_ws fence_json) by done.
  rewrite (replace_all_ws fence) by done.
  by rewrite trim_ws.
Qed.

Lemma cleanup_ignores_outer_space_witness :
  strip_fences (lit "  " ++ lit "```json[1]```" ++ [10%N]) = strip_fences (lit "```json[1]```")
  /\ strip_fences (trim (lit "```json[1]```")) = strip_fences (lit "```json[1]```").
Proof.
  apply (cleanup_ignores_outer_space (lit "  ") (lit "```json[1]```") [10%N]);
    reflexivity.
Defined.

(** X16. A text without a run of three backticks is only trimmed by the
    cleanup, and if it is JSON the cleaned text parses to the same value. *)
Theorem fence_free_text_only_trimmed (s : jsstring) :
  includes fence s = false ->
  strip_fences s = trim s
  /\ forall v, JSON.parse s = Some v -> JSON.parse (strip_fences s) = Some v.
Proof.
  intros Hi.
  assert (strip_fences s = trim s) as Hs.
  { unfold strip_fences. rewrite (replace_all_id fence_json []).
    - by rewrite (replace_all_id fence []).
    - change fence_json with (fence ++ lit "json"). by apply includes_longer. }
  split; [done |]. intros v Hp. rewrite Hs. by apply parse_trim.
Qed.

Lemma fence_free_text_only_trimmed_witness :
  strip_fences (lit " [1, 2] ") = trim (lit " [1, 2] ")
  /\ forall v, JSON.parse (lit " [1, 2] ") = Some v ->
               JSON.parse (strip_fences (lit " [1, 2] ")) = Some v.
Proof. apply (fence_free_text_only_trimmed (lit " [1, 2] ")). reflexivity. Defined.

(** X17. In [src/server.js] and [part_000] the health route answers 200
    without calling the upstream, and its [hasApiKey] says whether the image
    route finds a credential: it is false exactly when the image route
    answers with the configuration error. *)
Theorem health_matches_handler `{Engine} `{Express}
    (var : variant) (now : jsstring) (env : gmap string jsstring) (req : Request) :
  logs_length var = true ->
  library_middleware req = None ->
  route_matches "POST" "/api/process-image" req = false ->
  route_matches "GET" "/api/health" req = true ->
  exists h,
    app var now env req = Ret (res_json 200 h)
    /\ field h (lit "status") = Str (lit "ok")
    /\ field h (lit "timestamp") = Str now
    /\ field h (lit "hasApiKey") = Bool (truthy (credential var env))
    /\ forall req',
         nullish (req_body req') = false ->
         (field h (lit "hasApiKey") = Bool false
          <-> process_image var env req' = Ret (configuration_error var)).
Proof.
  intros Hv Hm Hp Hh.
  assert (credential var env = credential Server env) as Hc by (by destruct var).
  eexists. split.
  { destruct var; try done; unfold app, app_vercel; by rewrite Hm, Hp, Hh. }
  split; [vm_compute; reflexivity |]. split; [vm_compute; reflexivity |].
  assert (field
            (Obj [(lit "status", Str (lit "ok")); (lit "timestamp", Str now);
                  (lit "hasApiKey",
                   Bool (truthy (or_else (env_var env "GEMINI_API_KEY")
                                         (env_var env "GOOGLE_API_KEY"))));
                  (lit "nodeEnv", env_var env "NODE_ENV");
                  (lit "port",
                   or_else (env_var env "PORT")
                     (Num (number_of_nat 3001)))])
            (lit "hasApiKey")
          = Bool (truthy (credential var env))) as Hf.
  { rewrite Hc. reflexivity. }
  split; [exact Hf |]. intros req' Hb. rewrite Hf. split.
  - intros [= Ht]. apply missing_credential; try done. by destruct var.
  - intros Hr. destruct (truthy (credential var env)) eqn:Ht; [| done].
    destruct (credential_key var env Ht) as [key Hkey].
    assert (key <> []) as Hne by (intros ->; by rewrite Hkey in Ht).
    pose proof (up_to_call var env req' key Hb Hkey Hne) as Hu.
    rewrite Hr in Hu. destruct Hu. by destruct var.
Qed.

Lemma health_matches_handler_witness :
  exists h,
    @app sample_engine sample_express Server (lit "2025-01-01T00:00:00.000Z")
      with_key get_health = Ret (res_json 200 h)
    /\ field h (lit "status") = Str (lit "ok")
    /\ field h (lit "timestamp") = Str (lit "2025-01-01T00:00:00.000Z")
    /\ field h (lit "hasApiKey") = Bool (truthy (credential Server with_key))
    /\ forall req',
         nullish (req_body req') = false ->
         (field h (lit "hasApiKey") = Bool false
          <-> @process_image sample_engine Server with_key req'
              = Ret (configuration_error Server)).
Proof.
  apply (@health_matches_handler sample_engine sample_express Server
           (lit "2025-01-01T00:00:00.000Z") with_key get_health);
    reflexivity.
Defined.

(** X18. The answer of the health route does not depend on the value of the
    key: two environments with the same NODE_ENV and PORT, both with or both
    without a credential, give the same answer. *)
Theorem health_hides_key `{Engine} `{Express}
    (var : variant) (now : jsstring) (env env' : gmap string jsstring) (req : Request) :
  logs_length var = true ->
  library_middleware req = None ->
  route_matches "POST" "/api/process-image" req = false ->
  route_matches "GET" "/api/health" req = true ->
  env !! "NODE_ENV" = env' !! "NODE_ENV" ->
  env !! "PORT" = env' !! "PORT" ->
  truthy (credential var env) = truthy (credential var env') ->
  app var now env req = app var now env' req.
Proof.
  intros Hv Hm Hp Hh Hn Hport Hk.
  destruct var; try done; unfold app, app_vercel, health, credential, env_var in *;
    by rewrite Hm, Hp, Hh, Hn, Hport, Hk.
Qed.

Lemma health_hides_key_witness :
  @app sample_engine sample_express Part000 (lit "2025-01-01T00:00:00.000Z")
    with_key get_health
  = @app sample_engine sample_express Part000 (lit "2025-01-01T00:00:00.000Z")
      {[ "GOOGLE_API_KEY" := lit "another-key" ]} get_health.
Proof.
  apply (@health_hides_key sample_engine sample_express Part000
           (lit "2025-01-01T00:00:00.000Z") with_key
           {[ "GOOGLE_API_KEY" := lit "another-key" ]} get_health);
    reflexivity.
Defined.


Section Purity.
Context `{Engine}.

Lemma pure_try_catch {A} (m : prog A) (h : error -> prog A) :
  pure m -> (forall e, pure (h e)) -> pure (try_catch m h).
Proof. destruct m; simpl; auto. Qed.

Lemma pure_try_let {A B} (m : prog A) (h : error -> prog B) (k : A -> prog B) :
  pure m -> (forall e, pure (h e)) -> (forall a, pure (k a)) -> pure (try_let m h k).
Proof. destruct m; simpl; auto. Qed.

Lemma pure_throw_Error {A} (s : jsstring) : pure (@throw_Error A s).
Proof. done. Qed.

Lemma response_of_pure {A} (m : prog A) (up up' : upstream) :
  pure m -> response_of up m = response_of up' m.
Proof. by destruct m. Qed.

End Purity.

Ltac purity :=
  repeat first
    [ apply pure_try_catch | apply pure_try_let | apply pure_bind
    | apply pure_throw_Error | apply pure_ret
    | progress intros
    | match goal with
      | |- pure (if ?b then _ else _) => destruct b
      | |- pure (match ?x with _ => _ end) => destruct x
      end
    | solve [auto 10 with pure] | exact I ].

(** X19. In the variants other than [part_001] the answer does not depend on
    the status of the reply of the upstream ([src/server.js] and [part_000]
    only log it): two replies with the same body are answered alike, whatever
    the request and the environment. *)
Theorem status_not_consulted `{Engine}
    (var : variant) (env : gmap string jsstring) (req : Request)
    (up up' : upstream) (r r' : reply) :
  validates_input var = false ->
  answers up r -> answers up' r' ->
  reply_text r = reply_text r' ->
  response_of up (process_image var env req)
  = response_of up' (process_image var env req).
Proof.
  intros Hv Hup Hup' Hr.
  destruct (nullish (req_body req)) eqn:Hb.
  { apply response_of_pure.
    destruct var; try done;
      unfold process_image, process_image_vercel, process_image_002, destructure;
      rewrite Hb; done. }
  destruct (truthy (credential var env)) eqn:Hk.
  2:{ apply response_of_pure.
      destruct var; try done;
        unfold process_image, process_image_vercel, process_image_002, credential in *;
        rewrite !destructure_field by done; js_eval; rewrite Hk; done. }
  destruct (credential_key var env Hk) as [key Hkey].
  destruct var; try done;
    unfold process_image, process_image_vercel, process_image_002, credential in *;
    rewrite !destructure_field by done; js_eval; rewrite Hk; js_eval;
    rewrite Hkey, to_string_str; js_eval; unfold fetch; js_eval;
    rewrite !response_of_fetch, Hup, Hup'; js_eval;
    unfold response_json; rewrite Hr.
  all: apply response_of_pure.
  all: purity.
Qed.

Lemma status_not_consulted_witness :
  response_of (always (failed_text_reply scenario_text))
    (@process_image sample_engine Part002 with_key (post image_png))
  = response_of (always (text_reply scenario_text))
      (@process_image sample_engine Part002 with_key (post image_png)).
Proof.
  apply (@status_not_consulted sample_engine Part002 with_key (post image_png)
           (always (failed_text_reply scenario_text))
           (always (text_reply scenario_text))
           (failed_text_reply scenario_text) (text_reply scenario_text));
    [reflexivity | intros ? ?; reflexivity | intros ? ?; reflexivity | reflexivity].
Defined.


(** * The routes *)

Section Routes.
Context `{Engine}.


End Routes.



